(** * Stock recalculation engine: [cascade_recalc_stock] and its trigger

    A shallow embedding of the PL/pgSQL migration
    [supabase/migrations/20251021044834_...sql]: the row trigger
    [trigger_cascade_recalc] on [stock_events] and the stored procedure
    [cascade_recalc_stock] that rebuilds the per-IMEI rows of
    [stock_entries] from the event ledger.

    Modelling choices.
    - [DATE] is a day number in [Z]; [v_current_date + INTERVAL '1 day'] is
      [+ 1].
    - [UUID] values are opaque identifiers compared for equality only.
    - [INTEGER] columns and variables are mathematical integers; PostgreSQL
      raises [integer out of range] instead of wrapping, and such runs are
      outside this development.
    - A nullable column or PL/pgSQL variable is an [option]; [NULL] is
      [None]. Of a row of [stock_events] only [imei] is nullable: the forms
      that insert events always supply [date], [location_id],
      [phone_model_id], [event_type] and [qty]. The two dates passed to the
      procedure are not [NULL].
    - [stock_entries] is a finite map from its conflict target
      [(date, location_id, phone_model_id, imei)] to the six stock columns:
      the [ON CONFLICT] clause of the upsert requires that unique index.
      Every statement of the procedure on [stock_entries] compares [imei]
      with a value that is not [NULL], so rows without [imei] are never
      matched and are left out of the map. The timestamps [created_at] and
      [updated_at] are not modelled.
    - SQL does not fix the order in which [SELECT DISTINCT] returns the
      units; the model visits them in the order [remove_dups] leaves them.
    - Every statement the procedure runs against [stock_entries] is recorded
      in a trace, so that what a run reads and writes can be stated. *)

From stdpp Require Import gmap strings list.
From Equations Require Import Equations.

Open Scope string_scope.
Open Scope list_scope.
Open Scope Z_scope.

(** ** Tables *)

Definition uuid := N.

(** A row of [stock_events], with the columns the procedures read.
    [imei] is nullable ([e.imei IS NOT NULL] is tested by the code). *)
Record stock_event := {
  date : Z;
  location_id : uuid;
  phone_model_id : uuid;
  imei : option string;
  event_type : string;
  qty : Z
}.

(** The unit a balance belongs to: [(location_id, phone_model_id, imei)]. *)
Definition unit_key : Type := uuid * uuid * string.

(** The conflict target of [stock_entries]:
    [(date, location_id, phone_model_id, imei)]. *)
Definition entry_key : Type := Z * uuid * uuid * string.

Definition key_of (d : Z) (u : unit_key) : entry_key :=
  let '(l, m, i) := u in (d, l, m, i).

Definition key_date (k : entry_key) : Z := let '(d, _, _, _) := k in d.
Definition key_unit (k : entry_key) : unit_key := let '(_, l, m, i) := k in (l, m, i).

(** The stock columns of a row of [stock_entries]. *)
Record stock_entry := {
  morning_stock : option Z;
  incoming : option Z;
  sold : option Z;
  returns : option Z;
  adjustment : option Z;
  night_stock : option Z
}.

(** A statement executed against [stock_entries]. *)
Inductive access :=
  | SELECT_entry (k : entry_key)
  | UPSERT_entry (k : entry_key) (r : stock_entry).

Record state := {
  stock_events : list stock_event;
  stock_entries : gmap entry_key stock_entry;
  trace : list access
}.

Definition with_stock_events (evs : list stock_event) (s : state) : state :=
  {| stock_events := evs;
     stock_entries := stock_entries s;
     trace := trace s |}.

(** ** Exceptions and the procedure monad *)

(** A PL/pgSQL body either completes with a value or raises; the state at
    the point of the raise is kept, the caller decides what is rolled back. *)
Inductive outcome (A : Type) :=
  | Ok (a : A) (s : state)
  | Raise (e : string) (s : state).
Arguments Ok {A} a s.
Arguments Raise {A} e s.

Definition M (A : Type) : Type := state → outcome A.

Global Instance M_ret : MRet M := λ A a s, Ok a s.
Global Instance M_bind : MBind M := λ A B f m s,
  match m s with
  | Ok a s' => f a s'
  | Raise e s' => Raise e s'
  end.

Definition RAISE_EXCEPTION {A} (e : string) : M A := λ s, Raise e s.

Definition final_state {A} (o : outcome A) : state :=
  match o with Ok _ s => s | Raise _ s => s end.

(** ** SQL expressions *)

Definition COALESCE {A} (x : option A) (d : A) : A := default d x.

(** [SUM] over no row is [NULL]. *)
Definition SUM (l : list Z) : option Z :=
  match l with
  | [] => None
  | _ => Some (foldr Z.add 0 l)
  end.

Definition DISTINCT {A} `{EqDecision A} (l : list A) : list A := remove_dups l.

Section Engine.

(** The [CREATE TABLE] of [stock_entries] is not part of the migration; the
    constraints it puts on a row (checks, foreign keys) are a parameter:
    [entry_accepted k r] tells whether the table accepts row [r] under key
    [k]. *)
Variable entry_accepted : entry_key → stock_entry → bool.

(** ** Statements on [stock_entries] *)

(** [SELECT ... FROM stock_entries WHERE date = .. AND location_id = ..
    AND phone_model_id = .. AND imei = .. LIMIT 1] *)
Definition SELECT_stock_entry (k : entry_key) : M (option stock_entry) := λ s,
  Ok (stock_entries s !! k)
     {| stock_events := stock_events s;
        stock_entries := stock_entries s;
        trace := trace s ++ [SELECT_entry k] |}.

(** [INSERT INTO stock_entries ... ON CONFLICT (date, location_id,
    phone_model_id, imei) DO UPDATE SET ...]: all six stock columns are
    set from the new row. *)
Definition UPSERT_stock_entry (k : entry_key) (r : stock_entry) : M () := λ s,
  if entry_accepted k r then
    Ok () {| stock_events := stock_events s;
             stock_entries := <[k := r]> (stock_entries s);
             trace := trace s ++ [UPSERT_entry k r] |}
  else Raise "stock_entries rejects the row" s.

(** [FROM stock_events WHERE date = v_current_date AND location_id =
    v_location_id AND phone_model_id = v_phone_model_id AND imei = v_imei] *)
Definition day_events (u : unit_key) (v_current_date : Z)
    (evs : list stock_event) : list stock_event :=
  let '(v_location_id, v_phone_model_id, v_imei) := u in
  filter (λ e, date e = v_current_date
               ∧ location_id e = v_location_id
               ∧ phone_model_id e = v_phone_model_id
               ∧ imei e = Some v_imei) evs.

Definition events_of_day (u : unit_key) (v_current_date : Z) :
    M (list stock_event) := λ s,
  Ok (day_events u v_current_date (stock_events s)) s.

(** The four [CASE] expressions under the [SUM]s. *)
Definition CASE_incoming (e : stock_event) : Z :=
  if decide (event_type e = "masuk") then qty e else 0.

Definition CASE_sold (e : stock_event) : Z :=
  if decide (event_type e = "laku") then qty e else 0.

Definition CASE_returns (e : stock_event) : Z :=
  if decide (event_type e = "retur_in") then qty e else 0.

Definition CASE_adjustment (e : stock_event) : Z :=
  if decide (event_type e ∈ ["retur_out"; "transfer_out"]) then - qty e
  else if decide (event_type e = "transfer_in") then qty e
  else if decide (event_type e = "koreksi") then qty e
  else 0.

(** ** [cascade_recalc_stock] *)

Section Recalc.

Variables (p_from_date p_to_date : Z).
Variables (p_location_id p_phone_model_id : option uuid) (p_imei : option string).

(** The query of the outer [FOR] loop. *)
Definition affected_units (evs : list stock_event) : list unit_key :=
  DISTINCT
    (omap (λ e, i ← imei e; Some (location_id e, phone_model_id e, i))
       (filter (λ e, (p_from_date ≤ date e ≤ p_to_date)
                     ∧ (p_location_id = None ∨ Some (location_id e) = p_location_id)
                     ∧ (p_phone_model_id = None ∨ Some (phone_model_id e) = p_phone_model_id)
                     ∧ (p_imei = None ∨ imei e = p_imei)
                     ∧ imei e ≠ None ∧ imei e ≠ Some "") evs)).

(** The block inside the [WHILE] loop, for one unit and one day. *)
Definition day_block (u : unit_key) (v_current_date : Z) : M () :=
  v_prev_night_stock ←
    (if decide (v_current_date > p_from_date) then
       r ← SELECT_stock_entry (key_of (v_current_date - 1) u);
       mret ((λ r, COALESCE (night_stock r) 0) <$> r)
     else
       r ← SELECT_stock_entry (key_of v_current_date u);
       mret ((λ r, COALESCE (morning_stock r) 0) <$> r));
  let v_morning_stock := COALESCE v_prev_night_stock 0 in
  evs ← events_of_day u v_current_date;
  let v_incoming := COALESCE (SUM (CASE_incoming <$> evs)) 0 in
  let v_sold := COALESCE (SUM (CASE_sold <$> evs)) 0 in
  let v_returns := COALESCE (SUM (CASE_returns <$> evs)) 0 in
  let v_adjustment := COALESCE (SUM (CASE_adjustment <$> evs)) 0 in
  let v_night_stock :=
    v_morning_stock + v_incoming + v_returns - v_sold + v_adjustment in
  UPSERT_stock_entry (key_of v_current_date u)
    {| morning_stock := Some v_morning_stock;
       incoming := Some v_incoming;
       sold := Some v_sold;
       returns := Some v_returns;
       adjustment := Some v_adjustment;
       night_stock := Some v_night_stock |}.

(** The two counters [(v_days_count, v_entries_count)]. *)
Definition counters : Type := Z * Z.

(** [WHILE v_current_date <= p_to_date LOOP ... END LOOP] *)
Equations? day_loop (u : unit_key) (v_current_date : Z) (c : counters) :
    M counters by wf (Z.to_nat (p_to_date + 1 - v_current_date)) lt :=
  day_loop u v_current_date c with decide (v_current_date ≤ p_to_date) := {
    | left _ =>
        day_block u v_current_date;;
        let v_entries_count := c.2 + 1 in
        let v_days_count := c.1 + 1 in
        day_loop u (v_current_date + 1) (v_days_count, v_entries_count)
    | right _ => mret c }.
Proof. lia. Qed.

(** [FOR v_location_id, v_phone_model_id, v_imei IN ... LOOP] *)
Fixpoint unit_loop (us : list unit_key) (c : counters) : M counters :=
  match us with
  | [] => mret c
  | u :: us' =>
      c' ← day_loop u p_from_date c;
      unit_loop us' c'
  end.

Definition cascade_recalc_stock : M (Z * Z) :=
  if decide (p_from_date > p_to_date) then
    RAISE_EXCEPTION "from_date cannot be greater than to_date"
  else
    λ s, unit_loop (affected_units (stock_events s)) (0, 0) s.

End Recalc.

(** ** The trigger on [stock_events] *)

(** [TG_OP] with the row variables it defines: [NEW] for an insert, [OLD]
    and [NEW] for an update, [OLD] for a delete. *)
Inductive trigger_data :=
  | TG_INSERT (NEW : stock_event)
  | TG_UPDATE (OLD NEW : stock_event)
  | TG_DELETE (OLD : stock_event).

Definition trigger_cascade_recalc (tg : trigger_data) (CURRENT_DATE : Z) :
    M stock_event :=
  let '(v_date, v_location_id, v_phone_model_id, v_imei) :=
    match tg with
    | TG_DELETE OLD =>
        (date OLD, location_id OLD, phone_model_id OLD, imei OLD)
    | TG_INSERT NEW | TG_UPDATE _ NEW =>
        (date NEW, location_id NEW, phone_model_id NEW, imei NEW)
    end in
  cascade_recalc_stock v_date CURRENT_DATE
    (Some v_location_id) (Some v_phone_model_id) v_imei;;
  match tg with
  | TG_DELETE OLD => mret OLD
  | TG_INSERT NEW | TG_UPDATE _ NEW => mret NEW
  end.

(** A statement changing one row of [stock_events]; a row is addressed by
    its position in the table. *)
Inductive dml :=
  | INSERT_INTO_stock_events (NEW : stock_event)
  | UPDATE_stock_events (i : nat) (NEW : stock_event)
  | DELETE_FROM_stock_events (i : nat).

Definition set_stock_events (evs : list stock_event) : M () := λ s,
  Ok () (with_stock_events evs s).

(** [CREATE TRIGGER trigger_recalc_on_event_change AFTER INSERT OR UPDATE OR
    DELETE ON stock_events FOR EACH ROW EXECUTE FUNCTION
    trigger_cascade_recalc()]: the row is changed, then the trigger function
    runs on the changed table. A statement that matches no row fires
    nothing. *)
Definition run_dml (st : dml) (CURRENT_DATE : Z) : M () := λ s,
  match st with
  | INSERT_INTO_stock_events NEW =>
      (set_stock_events (stock_events s ++ [NEW]);;
       trigger_cascade_recalc (TG_INSERT NEW) CURRENT_DATE;; mret ()) s
  | UPDATE_stock_events i NEW =>
      match stock_events s !! i with
      | Some OLD =>
          (set_stock_events (<[i := NEW]> (stock_events s));;
           trigger_cascade_recalc (TG_UPDATE OLD NEW) CURRENT_DATE;; mret ()) s
      | None => Ok () s
      end
  | DELETE_FROM_stock_events i =>
      match stock_events s !! i with
      | Some OLD =>
          (set_stock_events (delete i (stock_events s));;
           trigger_cascade_recalc (TG_DELETE OLD) CURRENT_DATE;; mret ()) s
      | None => Ok () s
      end
  end.

End Engine.

(** ** Statements and their atomicity *)

(** An exception that leaves a statement undoes everything the statement
    did to the tables; neither procedure has an [EXCEPTION] block. The trace
    of what was executed remains. *)
Definition rollback (before failed : state) : state :=
  {| stock_events := stock_events before;
     stock_entries := stock_entries before;
     trace := trace failed |}.

Definition statement {A} (m : M A) (s : state) : (string + A) * state :=
  match m s with
  | Ok a s' => (inr a, s')
  | Raise e s' => (inl e, rollback s s')
  end.

(** The statements a run added to the trace. *)
Definition new_trace (before after : state) : list access :=
  drop (length (trace before)) (trace after).

Definition access_key (a : access) : entry_key :=
  match a with SELECT_entry k | UPSERT_entry k _ => k end.

Definition upsert_keys (t : list access) : list entry_key :=
  omap (λ a, match a with UPSERT_entry k _ => Some k | SELECT_entry _ => None end) t.

(** A table without constraints. *)
Definition accept_all (k : entry_key) (r : stock_entry) : bool := true.

(** ** The row a day's block computes

    [day_row p_from_date E evs u d] is the row that [day_block] upserts
    for unit [u] and day [d] when [stock_entries] is [E] and
    [stock_events] is [evs]; [opening] is its [v_morning_stock]. *)

Definition opening (p_from_date : Z) (E : gmap entry_key stock_entry)
    (u : unit_key) (d : Z) : Z :=
  COALESCE
    (if decide (d > p_from_date) then
       (λ r, COALESCE (night_stock r) 0) <$> E !! key_of (d - 1) u
     else
       (λ r, COALESCE (morning_stock r) 0) <$> E !! key_of d u) 0.

Definition balance_row (v_morning_stock : Z) (evs : list stock_event) :
    stock_entry :=
  let v_incoming := COALESCE (SUM (CASE_incoming <$> evs)) 0 in
  let v_sold := COALESCE (SUM (CASE_sold <$> evs)) 0 in
  let v_returns := COALESCE (SUM (CASE_returns <$> evs)) 0 in
  let v_adjustment := COALESCE (SUM (CASE_adjustment <$> evs)) 0 in
  {| morning_stock := Some v_morning_stock;
     incoming := Some v_incoming;
     sold := Some v_sold;
     returns := Some v_returns;
     adjustment := Some v_adjustment;
     night_stock :=
       Some (v_morning_stock + v_incoming + v_returns - v_sold + v_adjustment) |}.

Definition day_row (p_from_date : Z) (E : gmap entry_key stock_entry)
    (evs : list stock_event) (u : unit_key) (d : Z) : stock_entry :=
  balance_row (opening p_from_date E u d) (day_events u d evs).

(** The key read by the block of day [d]. *)
Definition read_key (p_from_date : Z) (u : unit_key) (d : Z) : entry_key :=
  if decide (d > p_from_date) then key_of (d - 1) u else key_of d u.

(** The keys a run visits, in the order of the two loops. *)
Definition schedule (us : list unit_key) (p_from_date p_to_date : Z) :
    list entry_key :=
  u ← us; (λ d, key_of d u) <$> seqZ p_from_date (p_to_date + 1 - p_from_date).

(** ** The specification's wording *)

(** The sum of the quantities of the events of kind [kind] dated [d] for
    unit [u]. *)
Definition quantity_of (kind : string) (u : unit_key) (d : Z)
    (evs : list stock_event) : Z :=
  foldr Z.add 0
    (qty <$> filter (λ e, event_type e = kind ∧ date e = d
                          ∧ (location_id e, phone_model_id e) = u.1
                          ∧ imei e = Some u.2) evs).

Definition spec_incoming := quantity_of "masuk".
Definition spec_sold := quantity_of "laku".
Definition spec_returned := quantity_of "retur_in".

Definition spec_net_adjustment (u : unit_key) (d : Z)
    (evs : list stock_event) : Z :=
  - quantity_of "retur_out" u d evs - quantity_of "transfer_out" u d evs
  + quantity_of "transfer_in" u d evs + quantity_of "koreksi" u d evs.

(** The signed quantities of the morning corrections dated [d] for [u]. *)
Definition spec_morning_correction := quantity_of "koreksi_pagi".

(** The affected-unit set: units with a non-empty serial and an event in
    the range that matches the filters. *)
Definition affected (p_from_date p_to_date : Z)
    (p_location_id p_phone_model_id : option uuid) (p_imei : option string)
    (evs : list stock_event) (u : unit_key) : Prop :=
  ∃ e, e ∈ evs
       ∧ p_from_date ≤ date e ≤ p_to_date
       ∧ (∀ l, p_location_id = Some l → location_id e = l)
       ∧ (∀ m, p_phone_model_id = Some m → phone_model_id e = m)
       ∧ (∀ i, p_imei = Some i → imei e = Some i)
       ∧ imei e = Some u.2 ∧ u.2 ≠ ""
       ∧ (location_id e, phone_model_id e) = u.1.

(** A unit is healthy when the table accepts every row the run computes for
    it; the rows the run computes are those of the run on a table without
    constraints. *)
Definition healthy_unit (entry_accepted : entry_key → stock_entry → bool)
    (p_from_date p_to_date : Z) (p_location_id p_phone_model_id : option uuid)
    (p_imei : option string) (s : state) (u : unit_key) : Prop :=
  ∀ d r, p_from_date ≤ d ≤ p_to_date →
    stock_entries (final_state (cascade_recalc_stock accept_all
      p_from_date p_to_date p_location_id p_phone_model_id p_imei s))
      !! key_of d u = Some r →
    entry_accepted (key_of d u) r = true.

(** Per-unit failure isolation, as the specification words it: whatever
    happens to the other units, after the call a healthy unit has the rows
    the run computes for it; they are neither rolled back nor left
    unattempted. *)
Definition failure_isolated_per_unit
    (entry_accepted : entry_key → stock_entry → bool)
    (p_from_date p_to_date : Z) (p_location_id p_phone_model_id : option uuid)
    (p_imei : option string) (s : state) : Prop :=
  ∀ u d,
    u ∈ affected_units p_from_date p_to_date p_location_id p_phone_model_id
          p_imei (stock_events s) →
    healthy_unit entry_accepted p_from_date p_to_date p_location_id
      p_phone_model_id p_imei s u →
    p_from_date ≤ d ≤ p_to_date →
    stock_entries (statement (cascade_recalc_stock entry_accepted
      p_from_date p_to_date p_location_id p_phone_model_id p_imei) s).2
      !! key_of d u
    = stock_entries (final_state (cascade_recalc_stock accept_all
        p_from_date p_to_date p_location_id p_phone_model_id p_imei s))
        !! key_of d u.

(** The Daily Balance of a day as the specification words it: the four
    same-day aggregates, and
    [closing = opening + incoming + returned − sold + net_adjustment]. *)
Definition spec_balance (opening : Z) (u : unit_key) (d : Z)
    (evs : list stock_event) : stock_entry :=
  {| morning_stock := Some opening;
     incoming := Some (spec_incoming u d evs);
     sold := Some (spec_sold u d evs);
     returns := Some (spec_returned u d evs);
     adjustment := Some (spec_net_adjustment u d evs);
     night_stock :=
       Some (opening + spec_incoming u d evs + spec_returned u d evs
             - spec_sold u d evs + spec_net_adjustment u d evs) |}.

(** A traced statement the table lets through: any [SELECT], and an upsert
    of a row it accepts. *)
Definition accepted_access (entry_accepted : entry_key → stock_entry → bool)
    (a : access) : Prop :=
  match a with
  | SELECT_entry _ => True
  | UPSERT_entry k r => entry_accepted k r = true
  end.

(** ** States with the same tables *)

Definition same_tables (s t : state) : Prop :=
  stock_events s = stock_events t ∧ stock_entries s = stock_entries t.

Definition same_outcome {A} (o o' : outcome A) : Prop :=
  match o, o' with
  | Ok a s, Ok a' s' => a = a' ∧ same_tables s s'
  | Raise e s, Raise e' s' => e = e' ∧ same_tables s s'
  | _, _ => False
  end.

(** ** A run under constraints against the unconstrained run

    [stops_at_first_rejection entry_accepted s o o'] compares the outcome
    [o] of a body run from [s] on a table with the constraints
    [entry_accepted] with the outcome [o'] of the same body run from [s] on
    a table without constraints: either both complete alike and every
    upsert was accepted, or [o] raises having executed what [o'] executes
    up to its first upsert that [entry_accepted] rejects, that upsert
    excluded. *)
Inductive stops_at_first_rejection
    (entry_accepted : entry_key → stock_entry → bool) {A : Type} (s : state) :
    outcome A → outcome A → Prop :=
  | run_completes a s' t :
      trace s' = trace s ++ t →
      Forall (accepted_access entry_accepted) t →
      stops_at_first_rejection entry_accepted s (Ok a s') (Ok a s')
  | run_stops e sf a s' t k r t' :
      trace sf = trace s ++ t →
      Forall (accepted_access entry_accepted) t →
      entry_accepted k r = false →
      trace s' = trace s ++ t ++ UPSERT_entry k r :: t' →
      stops_at_first_rejection entry_accepted s (Raise e sf) (Ok a s').

(** A body that completes on any state and only extends the trace. *)
Definition completes {A} (m : M A) : Prop :=
  ∀ s, ∃ a s' t, m s = Ok a s' ∧ trace s' = trace s ++ t.

(** ** The trigger contract, as the specification words it *)

(** [Recalculate(event.date, today, event.location, event.model,
    event.serial)] *)
Definition Recalculate_for (entry_accepted : entry_key → stock_entry → bool)
    (e : stock_event) (today : Z) : M (Z * Z) :=
  cascade_recalc_stock entry_accepted (date e) today
    (Some (location_id e)) (Some (phone_model_id e)) (imei e).

(** The event a statement creates, updates or deletes: the new row for an
    insert or an update, the row as it is before removal for a delete.
    [None] when the statement addresses no row. *)
Definition changed_event (st : dml) (evs : list stock_event) :
    option stock_event :=
  match st with
  | INSERT_INTO_stock_events NEW => Some NEW
  | UPDATE_stock_events i NEW => evs !! i;; Some NEW
  | DELETE_FROM_stock_events i => evs !! i
  end.

(** [stock_events] after the statement. *)
Definition changed_table (st : dml) (evs : list stock_event) :
    list stock_event :=
  match st with
  | INSERT_INTO_stock_events NEW => evs ++ [NEW]
  | UPDATE_stock_events i NEW => <[i := NEW]> evs
  | DELETE_FROM_stock_events i => delete i evs
  end.

(** ** Scenarios *)

Definition unit_U : unit_key := (1%N, 1%N, "356938035643809").
Definition unit_V : unit_key := (2%N, 1%N, "490154203237518").

Definition event_for (u : unit_key) (d : Z) (kind : string) (q : Z) :
    stock_event :=
  {| date := d; location_id := u.1.1; phone_model_id := u.1.2;
     imei := Some u.2; event_type := kind; qty := q |}.

Definition tables (evs : list stock_event)
    (rows : list (entry_key * stock_entry)) : state :=
  {| stock_events := evs; stock_entries := list_to_map rows; trace := [] |}.

(** Scenario A: one intake on day 1, no prior rows. *)
Definition scenario_A : state := tables [event_for unit_U 1 "masuk" 1] [].

(** Scenarios A to C in one ledger: an intake on day 1, a sale on day 2. *)
Definition scenario_C : state :=
  tables [event_for unit_U 1 "masuk" 1; event_for unit_U 2 "laku" 1] [].

(** Scenario D: an intake on day 2, so that day 3 inherits an opening of 1,
    and a morning correction of -1 on day 3. *)
Definition scenario_D : state :=
  tables [event_for unit_U 2 "masuk" 1; event_for unit_U 3 "koreksi_pagi" (-1)] [].

(** A unit that closed day 4 with one phone in stock and has no row yet for
    day 5, on which it is sold. *)
Definition scenario_no_row_today : state :=
  tables [event_for unit_U 4 "masuk" 1; event_for unit_U 5 "laku" 1]
    [(key_of 4 unit_U,
      {| morning_stock := Some 0; incoming := Some 1; sold := Some 0;
         returns := Some 0; adjustment := Some 0; night_stock := Some 1 |})].

(** A table that refuses a negative closing stock. *)
Definition nonnegative_stock (k : entry_key) (r : stock_entry) : bool :=
  bool_decide (0 ≤ COALESCE (night_stock r) 0).

(** Two units on day 1: [unit_U] takes a phone in, [unit_V] sells one it
    never had. *)
Definition scenario_two_units : state :=
  tables [event_for unit_U 1 "masuk" 1; event_for unit_V 1 "laku" 1] [].

(** ** The closed form of a run

    What a run leaves in a row, read off the two loops: the first day of
    the range opens with the [morning_stock] stored for it (0 without a
    row), every later day with the closing of the day before, and a day
    closes with its opening plus its net flow. *)

(** The net flow of a day:
    [v_incoming + v_returns - v_sold + v_adjustment]. *)
Definition day_flow (u : unit_key) (d : Z) (evs : list stock_event) : Z :=
  let day := day_events u d evs in
  COALESCE (SUM (CASE_incoming <$> day)) 0
  + COALESCE (SUM (CASE_returns <$> day)) 0
  - COALESCE (SUM (CASE_sold <$> day)) 0
  + COALESCE (SUM (CASE_adjustment <$> day)) 0.

Definition first_opening (p_from_date : Z) (E : gmap entry_key stock_entry)
    (u : unit_key) : Z :=
  match E !! key_of p_from_date u with
  | Some r => COALESCE (morning_stock r) 0
  | None => 0
  end.

(** The flows of the [n] days from [d] on. *)
Definition flows (u : unit_key) (evs : list stock_event) (d n : Z) : Z :=
  foldr Z.add 0 ((λ j, day_flow u j evs) <$> seqZ d n).

Definition opening_on (p_from_date : Z) (E : gmap entry_key stock_entry)
    (evs : list stock_event) (u : unit_key) (d : Z) : Z :=
  first_opening p_from_date E u + flows u evs p_from_date (d - p_from_date).

Definition closed_form_row (p_from_date : Z) (E : gmap entry_key stock_entry)
    (evs : list stock_event) (u : unit_key) (d : Z) : stock_entry :=
  balance_row (opening_on p_from_date E evs u d) (day_events u d evs).


(** The event kinds that some [CASE] of the aggregation names. *)
Definition counted_kinds : list string :=
  ["masuk"; "laku"; "retur_in"; "retur_out"; "transfer_out"; "transfer_in";
   "koreksi"].



(** * The forms

    The barcode scanner ([BarcodeScanner.tsx]) and the intake dialog
    ([IncomingStockDialog]). A JavaScript string is its sequence of UTF-16
    code units, [length] is the number of code units, and [===] on strings
    is equality of the sequences. *)

(** ASCII text of the source as a JavaScript string. *)
Definition js (s : string) : list N :=
  Ascii.N_of_ascii <$> String.list_ascii_of_string s.

(** [\d] without the [u] flag: the code units of [0] to [9]; [\D] is its
    complement. *)
Definition is_digit (c : N) : Prop := (48 ≤ c ≤ 57)%N.

(** What [String.prototype.trim] strips: the white space and line
    terminator code points of ECMAScript, all of them single code units. *)
Definition is_white_space (c : N) : Prop :=
  c ∈ [9; 10; 11; 12; 13; 32; 160; 5760; 8232; 8233; 8239; 8287; 12288;
       65279]%N
  ∨ (8192 ≤ c ≤ 8202)%N.

Fixpoint trimStart (s : list N) : list N :=
  match s with
  | c :: s' => if decide (is_white_space c) then trimStart s' else s
  | [] => []
  end.

Definition trim (s : list N) : list N :=
  reverse (trimStart (reverse (trimStart s))).

(** [s.replace(/\D/g, '')] *)
Definition replace_non_digits (s : list N) : list N := filter is_digit s.

(** ** The scan callback of [BarcodeScanner] *)

(** What the callback does to its surroundings, in order. *)
Inductive scanner_effect :=
  | toast (title description : list N) (destructive : bool)
  | onScanSuccess (decodedText : list N)
  | onOpenChange (open : bool).

Definition scan_callback (decodedText : list N) : list scanner_effect :=
  let cleanedText := replace_non_digits (trim decodedText) in
  if decide (length cleanedText = 15%nat) then
    [toast (js "IMEI berhasil di-scan") cleanedText false;
     onScanSuccess cleanedText;
     onOpenChange false]
  else
    [toast (js "Format IMEI tidak valid") (js "IMEI harus 15 digit") true].

(** ** The validation of [incomingStockMutation] *)

(** The [Error]s thrown before the database is consulted: 'Lokasi wajib
    dipilih', 'Merk wajib dipilih', 'Model HP wajib dipilih', 'Harap
    masukkan minimal 1 IMEI', [`IMEI ${imei} harus 15 digit`] and
    [`IMEI duplikat: ${duplicates.join(", ")}`]. *)
Inductive validation_error :=
  | Lokasi_wajib_dipilih
  | Merk_wajib_dipilih
  | Model_HP_wajib_dipilih
  | Harap_masukkan_minimal_1_IMEI
  | IMEI_harus_15_digit (imei : list N)
  | IMEI_duplikat (duplicates : list (list N)).

(** [validImeis.indexOf(imei)]: the first index holding [imei], else -1. *)
Definition indexOf (l : list (list N)) (imei : list N) : Z :=
  match list_find (λ x, x = imei) l with
  | Some (i, _) => Z.of_nat i
  | None => -1
  end.

(** [imeiList.filter(imei => imei.trim() !== "")] *)
Definition validImeis (imeiList : list (list N)) : list (list N) :=
  filter (λ imei, trim imei ≠ []) imeiList.

(** [validImeis.filter((imei, index) => validImeis.indexOf(imei) !==
    index)] *)
Definition duplicates (l : list (list N)) : list (list N) :=
  snd <$> filter (λ p, indexOf l p.2 ≠ Z.of_nat p.1) (imap pair l).

Definition validate (selectedLocation selectedBrand selectedModel : list N)
    (imeiList : list (list N)) : validation_error + list (list N) :=
  if decide (selectedLocation = []) then inl Lokasi_wajib_dipilih
  else if decide (selectedBrand = []) then inl Merk_wajib_dipilih
  else if decide (selectedModel = []) then inl Model_HP_wajib_dipilih
  else
    let validImeis := validImeis imeiList in
    if decide (length validImeis = 0%nat) then
      inl Harap_masukkan_minimal_1_IMEI
    else
      match list_find (λ imei, length imei ≠ 15%nat) validImeis with
      | Some (_, imei) => inl (IMEI_harus_15_digit imei)
      | None =>
          let duplicates := duplicates validImeis in
          if decide (0 < length duplicates)%nat then
            inl (IMEI_duplikat duplicates)
          else inr validImeis
      end.

(** The [imei] column of [eventsToInsert]: [imei.trim()] for each of
    [validImeis]. *)
Definition inserted_imeis (validImeis : list (list N)) : list (list N) :=
  trim <$> validImeis.


(** ** Footprints

    Where a run of a loop may touch [stock_entries]: every statement it
    adds to the trace, and every row it changes, has its key in [P]. This
    holds whether the run completes or raises. *)
Definition confined (P : entry_key → Prop) (s s' : state) : Prop :=
  stock_events s' = stock_events s
  ∧ (∃ t, trace s' = trace s ++ t ∧ Forall (λ a, P (access_key a)) t)
  ∧ (∀ k, ¬ P k → stock_entries s' !! k = stock_entries s !! k).

(** * Properties *)

Section Properties.

Variable entry_accepted : entry_key → stock_entry → bool.

(** ** Keys *)

Lemma key_unit_key_of d u : key_unit (key_of d u) = u.
Proof. by destruct u as [[??]?]. Qed.

Lemma key_date_key_of d u : key_date (key_of d u) = d.
Proof. by destruct u as [[??]?]. Qed.

Lemma key_of_eta k : key_of (key_date k) (key_unit k) = k.
Proof. by destruct k as [[[??]?]?]. Qed.

Lemma key_of_inj d u d' u' : key_of d u = key_of d' u' → d = d' ∧ u = u'.
Proof.
  intros H. split.
  - by rewrite <- (key_date_key_of d u), H, key_date_key_of.
  - by rewrite <- (key_unit_key_of d u), H, key_unit_key_of.
Qed.

Lemma key_unit_read_key p_from_date u d : key_unit (read_key p_from_date u d) = u.
Proof. unfold read_key. case_decide; apply key_unit_key_of. Qed.

Lemma key_date_read_key p_from_date u d :
  p_from_date ≤ d →
  p_from_date ≤ key_date (read_key p_from_date u d) ≤ d.
Proof. unfold read_key. case_decide; rewrite key_date_key_of; lia. Qed.

(** The row of a day depends on [stock_entries] through the key it reads. *)
Lemma opening_read_key p_from_date E u d :
  opening p_from_date E u d =
    COALESCE
      ((λ r, COALESCE (if decide (d > p_from_date) then night_stock r
                       else morning_stock r) 0)
         <$> E !! read_key p_from_date u d) 0.
Proof. unfold opening, read_key. by case_decide. Qed.

Lemma day_row_ext p_from_date E E' evs u d :
  E !! read_key p_from_date u d = E' !! read_key p_from_date u d →
  day_row p_from_date E evs u d = day_row p_from_date E' evs u d.
Proof.
  intros H. unfold day_row. by rewrite !opening_read_key, H.
Qed.

Lemma night_stock_day_row p_from_date E evs u d :
  ∃ closing, night_stock (day_row p_from_date E evs u d) = Some closing.
Proof. by eexists. Qed.

Lemma morning_stock_day_row p_from_date E evs u d :
  morning_stock (day_row p_from_date E evs u d)
  = Some (opening p_from_date E u d).
Proof. reflexivity. Qed.

(** ** One day *)

Lemma day_block_run p_from_date u d s :
  day_block entry_accepted p_from_date u d s =
    let k := key_of d u in
    let r := day_row p_from_date (stock_entries s) (stock_events s) u d in
    if entry_accepted k r then
      Ok () {| stock_events := stock_events s;
               stock_entries := <[k := r]> (stock_entries s);
               trace := trace s ++ [SELECT_entry (read_key p_from_date u d);
                                    UPSERT_entry k r] |}
    else
      Raise "stock_entries rejects the row"
        {| stock_events := stock_events s;
           stock_entries := stock_entries s;
           trace := trace s ++ [SELECT_entry (read_key p_from_date u d)] |}.
Proof.
  unfold day_block, day_row, opening, read_key, balance_row.
  unfold mbind, M_bind, mret, M_ret, SELECT_stock_entry, events_of_day,
    UPSERT_stock_entry.
  destruct (decide (d > p_from_date)); simpl;
    (destruct (entry_accepted _ _); simpl; [rewrite <- app_assoc|]; reflexivity).
Qed.

Lemma day_loop_step p_from_date p_to_date u d c s :
  day_loop entry_accepted p_from_date p_to_date u d c s =
    if decide (d ≤ p_to_date) then
      match day_block entry_accepted p_from_date u d s with
      | Ok _ s1 =>
          day_loop entry_accepted p_from_date p_to_date u (d + 1)
            (c.1 + 1, c.2 + 1) s1
      | Raise e s1 => Raise e s1
      end
    else Ok c s.
Proof.
  rewrite day_loop_equation_1.
  destruct (decide (d ≤ p_to_date)); reflexivity.
Qed.

(** ** The loop over the days of one unit *)

Lemma confined_refl P s : confined P s s.
Proof.
  split; [done|]. split; [|done].
  exists []. by rewrite app_nil_r.
Qed.

Lemma confined_trans P s1 s2 s3 :
  confined P s1 s2 → confined P s2 s3 → confined P s1 s3.
Proof.
  intros (Hev1 & (t1 & Ht1 & HP1) & Hfr1) (Hev2 & (t2 & Ht2 & HP2) & Hfr2).
  split; [congruence|]. split.
  - exists (t1 ++ t2). split.
    + by rewrite Ht2, Ht1, app_assoc.
    + by apply Forall_app.
  - intros k Hk. by rewrite Hfr2, Hfr1.
Qed.

Lemma confined_weaken (P Q : entry_key → Prop) s s' :
  (∀ k, P k → Q k) → confined P s s' → confined Q s s'.
Proof.
  intros HPQ (Hev & (t & Ht & HP) & Hfr).
  split; [done|]. split.
  - exists t. split; [done|]. eapply Forall_impl; [exact HP|]. naive_solver.
  - intros k Hk. apply Hfr. naive_solver.
Qed.

Lemma day_block_confined p_from_date u d s :
  p_from_date ≤ d →
  confined (λ k, key_unit k = u ∧ p_from_date ≤ key_date k ≤ d)
    s (final_state (day_block entry_accepted p_from_date u d s)).
Proof.
  intros Hd. rewrite day_block_run. cbv zeta.
  pose proof (key_date_read_key p_from_date u d Hd) as Hr.
  pose proof (key_unit_read_key p_from_date u d) as Hu.
  destruct (entry_accepted _ _); simpl.
  - split; [done|]. split.
    + eexists. split; [done|].
      repeat constructor; simpl; rewrite ?key_unit_key_of, ?key_date_key_of;
        auto; lia.
    + intros k Hk. simpl. apply lookup_insert_ne. intros <-.
      apply Hk. rewrite key_unit_key_of, key_date_key_of. split; [done|lia].
  - split; [done|]. split; [|done].
    eexists. split; [done|]. repeat constructor; simpl; auto; lia.
Qed.

Lemma day_loop_confined p_from_date p_to_date u n : ∀ d c s,
  Z.to_nat (p_to_date + 1 - d) = n →
  p_from_date ≤ d →
  confined (λ k, key_unit k = u ∧ p_from_date ≤ key_date k ≤ p_to_date)
    s (final_state (day_loop entry_accepted p_from_date p_to_date u d c s)).
Proof.
  induction n as [|n IH]; intros d c s Hn Hd; rewrite day_loop_step.
  - case_decide; [lia|]. apply confined_refl.
  - case_decide; [|lia].
    pose proof (day_block_confined p_from_date u d s Hd) as Hb.
    apply (confined_weaken _
             (λ k, key_unit k = u ∧ p_from_date ≤ key_date k ≤ p_to_date))
      in Hb; [|simpl; intros k ?; split; [tauto|lia]].
    destruct (day_block _ _ _ _ _) as [[] s1|e s1]; simpl in *; [|done].
    eapply confined_trans; [exact Hb|].
    apply IH; lia.
Qed.

Lemma day_block_frame p_from_date u d s k :
  k ≠ key_of d u →
  stock_entries (final_state (day_block entry_accepted p_from_date u d s)) !! k
  = stock_entries s !! k.
Proof.
  intros Hk. rewrite day_block_run. cbv zeta.
  destruct (entry_accepted _ _); simpl; [|done].
  by apply lookup_insert_ne.
Qed.

(** The days from [d] on are the only rows of the unit the loop changes. *)
Lemma day_loop_frame p_from_date p_to_date u n : ∀ d c s k,
  Z.to_nat (p_to_date + 1 - d) = n →
  ¬ (key_unit k = u ∧ d ≤ key_date k ≤ p_to_date) →
  stock_entries
    (final_state (day_loop entry_accepted p_from_date p_to_date u d c s)) !! k
  = stock_entries s !! k.
Proof.
  induction n as [|n IH]; intros d c s k Hn Hk; rewrite day_loop_step.
  - by case_decide; [lia|].
  - case_decide; [|lia].
    pose proof (day_block_frame p_from_date u d s k) as Hb.
    destruct (day_block _ _ _ _ _) as [[] s1|e s1]; simpl in *.
    + rewrite IH; [|lia|].
      * apply Hb. intros ->. apply Hk.
        rewrite key_unit_key_of, key_date_key_of. split; [done|lia].
      * intros [? ?]. apply Hk. split; [done|lia].
    + apply Hb. intros ->. apply Hk.
      rewrite key_unit_key_of, key_date_key_of. split; [done|lia].
Qed.

Lemma upsert_keys_app t1 t2 :
  upsert_keys (t1 ++ t2) = upsert_keys t1 ++ upsert_keys t2.
Proof. apply omap_app. Qed.

(** A completed day loop: the counters, the upserts in order, and the rows
    it leaves, each the row its own day computes from the final table. *)
Lemma day_loop_ok p_from_date p_to_date u n : ∀ d c s c' s',
  Z.to_nat (p_to_date + 1 - d) = n →
  p_from_date ≤ d →
  day_loop entry_accepted p_from_date p_to_date u d c s = Ok c' s' →
  c' = (c.1 + Z.of_nat n, c.2 + Z.of_nat n)
  ∧ (∃ t, trace s' = trace s ++ t
          ∧ upsert_keys t = (λ d', key_of d' u) <$> seqZ d (Z.of_nat n))
  ∧ (∀ d', d ≤ d' ≤ p_to_date →
       let r := day_row p_from_date (stock_entries s') (stock_events s) u d' in
       stock_entries s' !! key_of d' u = Some r
       ∧ entry_accepted (key_of d' u) r = true).
Proof.
  induction n as [|n IH]; intros d c s c' s' Hn Hd; rewrite day_loop_step.
  - case_decide; [lia|]. intros [= <- <-]. split; [|split].
    + destruct c; simpl; f_equal; lia.
    + exists []. by rewrite app_nil_r.
    + intros; lia.
  - case_decide; [|lia].
    pose proof (day_block_run p_from_date u d s) as Hb. cbv zeta in Hb.
    destruct (day_block _ _ _ _ _) as [[] s1|e s1] eqn:Hblk; [|done].
    intros Hloop.
    destruct (entry_accepted _ _) eqn:Hacc; [|done].
    injection Hb as Hs1.
    pose proof (day_loop_frame p_from_date p_to_date u n (d + 1)
                  (c.1 + 1, c.2 + 1) s1) as Hfr.
    rewrite Hloop in Hfr. simpl in Hfr.
    apply IH in Hloop as (-> & (t & Ht & Hup) & Hrows); [|lia..].
    subst s1. simpl in *. split; [|split].
    + f_equal; lia.
    + eexists. split.
      * rewrite Ht, <- app_assoc. reflexivity.
      * rewrite upsert_keys_app, Hup. simpl.
        rewrite (seqZ_cons d) by lia. simpl.
        do 3 f_equal; lia.
    + intros d' Hd'.
      destruct (decide (d' = d)) as [->|Hne]; [|apply Hrows; lia].
      assert (stock_entries s' !! key_of d u
              = Some (day_row p_from_date (stock_entries s) (stock_events s) u d))
        as Hrow.
      { rewrite Hfr; [by rewrite lookup_insert_eq|lia|].
        rewrite key_unit_key_of, key_date_key_of. lia. }
      assert (day_row p_from_date (stock_entries s') (stock_events s) u d
              = day_row p_from_date (stock_entries s) (stock_events s) u d)
        as ->; [|by rewrite Hrow, Hacc].
      unfold day_row. f_equal. rewrite !opening_read_key.
      unfold read_key. case_decide.
      * rewrite Hfr; [|lia|rewrite key_unit_key_of, key_date_key_of; lia].
        rewrite lookup_insert_ne; [done|].
        intros [? ?]%key_of_inj; lia.
      * rewrite Hrow. simpl. unfold opening. by rewrite decide_False.
Qed.

(** ** The loop over the units *)

Lemma unit_loop_confined p_from_date p_to_date us : ∀ c s,
  confined (λ k, key_unit k ∈ us ∧ p_from_date ≤ key_date k ≤ p_to_date)
    s (final_state (unit_loop entry_accepted p_from_date p_to_date us c s)).
Proof.
  induction us as [|u us IH]; intros c s; simpl.
  - apply confined_refl.
  - unfold mbind, M_bind.
    pose proof (day_loop_confined p_from_date p_to_date u _ p_from_date c s
                  eq_refl (Z.le_refl _)) as Hd.
    apply (confined_weaken _
             (λ k, key_unit k ∈ u :: us ∧ p_from_date ≤ key_date k ≤ p_to_date))
      in Hd; [|simpl; intros k [-> ?]; split; [left|done]].
    destruct (day_loop _ _ _ _ _ _ _) as [c1 s1|e s1]; simpl in *; [|done].
    eapply confined_trans; [exact Hd|].
    eapply confined_weaken; [|apply IH].
    simpl. intros k [? ?]. split; [by right|done].
Qed.

Lemma seqZ_of_nat_to_nat m len : seqZ m (Z.of_nat (Z.to_nat len)) = seqZ m len.
Proof. unfold seqZ. by rewrite Nat2Z.id. Qed.

(** A completed run of the unit loop over distinct units. *)
Lemma unit_loop_ok p_from_date p_to_date us : ∀ c s c' s',
  NoDup us →
  unit_loop entry_accepted p_from_date p_to_date us c s = Ok c' s' →
  let n := Z.of_nat (length us) * Z.of_nat (Z.to_nat (p_to_date + 1 - p_from_date)) in
  c' = (c.1 + n, c.2 + n)
  ∧ (∃ t, trace s' = trace s ++ t
          ∧ upsert_keys t = schedule us p_from_date p_to_date)
  ∧ (∀ u d, u ∈ us → p_from_date ≤ d ≤ p_to_date →
       let r := day_row p_from_date (stock_entries s') (stock_events s) u d in
       stock_entries s' !! key_of d u = Some r
       ∧ entry_accepted (key_of d u) r = true).
Proof.
  induction us as [|u us IH]; intros c s c' s' Hnd; simpl.
  - intros [= <- <-]. split; [|split].
    + destruct c; simpl; f_equal; lia.
    + exists []. by rewrite app_nil_r.
    + intros ?? ?%elem_of_nil. done.
  - unfold mbind, M_bind.
    destruct (day_loop _ _ _ _ _ _ _) as [c1 s1|e s1] eqn:Hday; [|done].
    intros Hrest.
    apply NoDup_cons in Hnd as [Hu Hnd].
    pose proof (day_loop_confined p_from_date p_to_date u _ p_from_date c s
                  eq_refl (Z.le_refl _)) as (Hev1 & _ & _).
    rewrite Hday in Hev1. simpl in Hev1.
    pose proof (unit_loop_confined p_from_date p_to_date us c1 s1)
      as (_ & _ & Hfr).
    rewrite Hrest in Hfr. simpl in Hfr.
    apply day_loop_ok with (n := Z.to_nat (p_to_date + 1 - p_from_date))
      in Hday as (-> & (t1 & Ht1 & Hup1) & Hrows1); [|done..].
    apply IH in Hrest as (-> & (t2 & Ht2 & Hup2) & Hrows2); [|done].
    simpl. split; [|split].
    + f_equal; lia.
    + exists (t1 ++ t2). split.
      * by rewrite Ht2, Ht1, app_assoc.
      * rewrite upsert_keys_app, Hup1, Hup2.
        unfold schedule. simpl. by rewrite seqZ_of_nat_to_nat.
    + intros u' d [->|Hin]%elem_of_cons Hd.
      * assert (∀ d', stock_entries s' !! key_of d' u
                      = stock_entries s1 !! key_of d' u) as Hsame.
        { intros d'. apply Hfr. rewrite key_unit_key_of. tauto. }
        specialize (Hrows1 d Hd). simpl in Hrows1.
        rewrite (day_row_ext _ (stock_entries s') (stock_entries s1)).
        -- by rewrite Hsame.
        -- rewrite <- (key_of_eta (read_key p_from_date u d)),
             key_unit_read_key. apply Hsame.
      * rewrite <- Hev1. by apply Hrows2.
Qed.

(** ** The procedure *)

Lemma new_trace_app s s' t : trace s' = trace s ++ t → new_trace s s' = t.
Proof. intros H. unfold new_trace. by rewrite H, drop_app_length. Qed.

Lemma NoDup_affected_units p_from_date p_to_date p_location_id
    p_phone_model_id p_imei evs :
  NoDup (affected_units p_from_date p_to_date p_location_id p_phone_model_id
           p_imei evs).
Proof. apply NoDup_remove_dups. Qed.

(** The units the [FOR] query returns are the affected-unit set. *)
Lemma affected_units_spec p_from_date p_to_date p_location_id
    p_phone_model_id p_imei evs u :
  u ∈ affected_units p_from_date p_to_date p_location_id p_phone_model_id
        p_imei evs
  ↔ affected p_from_date p_to_date p_location_id p_phone_model_id p_imei evs u.
Proof.
  unfold affected_units, DISTINCT, affected.
  rewrite elem_of_remove_dups, list_elem_of_omap.
  destruct u as [[l m] i]. simpl. split.
  - intros (e & He & Hu). apply list_elem_of_filter in He as [Hp He].
    destruct Hp as (Hd & Hl & Hm & Hi & _ & Hne).
    destruct (imei e) as [i'|] eqn:Himei; simplify_eq/=.
    exists e. rewrite Himei. repeat split; try done; try lia.
    + intros l ->. by destruct Hl as [|[=]].
    + intros m ->. by destruct Hm as [|[=]].
    + intros i' ->. by destruct Hi as [|].
    + congruence.
  - intros (e & He & Hd & Hl & Hm & Hi & Himei & Hne & [= <- <-]).
    exists e. rewrite Himei. split; [|done].
    apply list_elem_of_filter. split; [|done].
    repeat split; try done; try lia.
    + destruct p_location_id as [l|]; [right|by left]. by rewrite (Hl l).
    + destruct p_phone_model_id as [m|]; [right|by left]. by rewrite (Hm m).
    + destruct p_imei as [i'|]; [right|by left]. by rewrite (Hi i').
    + by rewrite Himei.
    + rewrite Himei. congruence.
Qed.

Lemma cascade_recalc_stock_confined p_from_date p_to_date p_location_id
    p_phone_model_id p_imei s :
  confined
    (λ k, key_unit k ∈ affected_units p_from_date p_to_date p_location_id
                         p_phone_model_id p_imei (stock_events s)
          ∧ p_from_date ≤ key_date k ≤ p_to_date)
    s (final_state (cascade_recalc_stock entry_accepted p_from_date p_to_date
                      p_location_id p_phone_model_id p_imei s)).
Proof.
  unfold cascade_recalc_stock. case_decide.
  - apply confined_refl.
  - apply unit_loop_confined.
Qed.

Lemma cascade_recalc_stock_ok p_from_date p_to_date p_location_id
    p_phone_model_id p_imei s c s' :
  cascade_recalc_stock entry_accepted p_from_date p_to_date p_location_id
    p_phone_model_id p_imei s = Ok c s' →
  let us := affected_units p_from_date p_to_date p_location_id
              p_phone_model_id p_imei (stock_events s) in
  let n := Z.of_nat (length us) * (p_to_date + 1 - p_from_date) in
  p_from_date ≤ p_to_date
  ∧ stock_events s' = stock_events s
  ∧ c = (n, n)
  ∧ upsert_keys (new_trace s s') = schedule us p_from_date p_to_date
  ∧ (∀ u d, u ∈ us → p_from_date ≤ d ≤ p_to_date →
       let r := day_row p_from_date (stock_entries s') (stock_events s) u d in
       stock_entries s' !! key_of d u = Some r
       ∧ entry_accepted (key_of d u) r = true).
Proof.
  intros Hrun.
  pose proof (cascade_recalc_stock_confined p_from_date p_to_date
                p_location_id p_phone_model_id p_imei s) as (Hev & _ & _).
  rewrite Hrun in Hev. simpl in Hev.
  unfold cascade_recalc_stock in Hrun. case_decide; [done|].
  apply unit_loop_ok in Hrun as (-> & (t & Ht & Hup) & Hrows);
    [|apply NoDup_affected_units].
  simpl. split; [lia|]. split; [done|]. split; [|split].
  - f_equal; lia.
  - by rewrite (new_trace_app _ _ t).
  - done.
Qed.

(** ** The same-day aggregates *)

Lemma COALESCE_SUM l : COALESCE (SUM l) 0 = foldr Z.add 0 l.
Proof. by destruct l. Qed.

Lemma quantity_of_day_events kind u d evs :
  quantity_of kind u d evs
  = foldr Z.add 0
      ((λ e, if decide (event_type e = kind) then qty e else 0)
         <$> day_events u d evs).
Proof.
  unfold quantity_of, day_events. destruct u as [[l m] i]. simpl.
  induction evs as [|e evs IH]; [done|].
  rewrite !filter_cons.
  destruct (decide (date e = d ∧ location_id e = l ∧ phone_model_id e = m
                    ∧ imei e = Some i)) as [Hday|Hday].
  - rewrite fmap_cons. simpl. rewrite <- IH.
    destruct (decide (event_type e = kind)) as [Hk|Hk].
    + rewrite decide_True; [done|].
      destruct Hday as (? & ? & ? & ?). repeat split; congruence.
    + rewrite decide_False; [lia|]. by intros [? _].
  - rewrite decide_False; [done|].
    intros (_ & ? & [= ? ?] & ?). by apply Hday.
Qed.

Lemma CASE_adjustment_split e :
  CASE_adjustment e
  = - (if decide (event_type e = "retur_out") then qty e else 0)
    - (if decide (event_type e = "transfer_out") then qty e else 0)
    + (if decide (event_type e = "transfer_in") then qty e else 0)
    + (if decide (event_type e = "koreksi") then qty e else 0).
Proof.
  unfold CASE_adjustment.
  destruct (decide (event_type e ∈ ["retur_out"; "transfer_out"])) as [Hin|Hin].
  - apply elem_of_cons in Hin as [->|Hin].
    + rewrite decide_True by done. repeat (rewrite decide_False by done). lia.
    + apply list_elem_of_singleton in Hin as ->.
      rewrite (decide_True (P := _ = "transfer_out")) by done.
      repeat (rewrite decide_False by done). lia.
  - rewrite (decide_False (P := _ = "retur_out")) by set_solver.
    rewrite (decide_False (P := _ = "transfer_out")) by set_solver.
    destruct (decide (event_type e = "transfer_in")) as [->|];
      [rewrite decide_False by done|]; lia.
Qed.

Lemma aggregates_spec u d evs :
  COALESCE (SUM (CASE_incoming <$> day_events u d evs)) 0 = spec_incoming u d evs
  ∧ COALESCE (SUM (CASE_sold <$> day_events u d evs)) 0 = spec_sold u d evs
  ∧ COALESCE (SUM (CASE_returns <$> day_events u d evs)) 0
    = spec_returned u d evs
  ∧ COALESCE (SUM (CASE_adjustment <$> day_events u d evs)) 0
    = spec_net_adjustment u d evs.
Proof.
  unfold spec_incoming, spec_sold, spec_returned, spec_net_adjustment.
  rewrite !COALESCE_SUM, !quantity_of_day_events.
  repeat split; try done.
  induction (day_events u d evs) as [|e l IH]; [done|].
  rewrite !fmap_cons. simpl. rewrite IH, CASE_adjustment_split. lia.
Qed.

Lemma balance_row_spec p_from_date E evs u d :
  day_row p_from_date E evs u d
  = spec_balance (opening p_from_date E u d) u d evs.
Proof.
  unfold day_row, balance_row, spec_balance.
  destruct (aggregates_spec u d evs) as (-> & -> & -> & ->). done.
Qed.

Lemma elem_of_schedule us p_from_date p_to_date k :
  k ∈ schedule us p_from_date p_to_date
  ↔ key_unit k ∈ us ∧ p_from_date ≤ key_date k ≤ p_to_date.
Proof.
  unfold schedule. rewrite list_elem_of_bind. split.
  - intros (u & Hk & Hu). apply list_elem_of_fmap in Hk as (d & -> & Hd).
    apply elem_of_seqZ in Hd. rewrite key_unit_key_of, key_date_key_of.
    split; [done|lia].
  - intros [Hu Hd]. exists (key_unit k). split; [|done].
    apply list_elem_of_fmap. exists (key_date k). split.
    + by rewrite key_of_eta.
    + apply elem_of_seqZ. lia.
Qed.

(** C1. After a completed run, the row of every affected unit and every day
    of the range was upserted by the run and holds: [incoming], the sum of
    the day's [masuk] quantities; [sold], the sum of its [laku] quantities;
    [returns], the sum of its [retur_in] quantities; [adjustment], minus
    the [retur_out] and [transfer_out] quantities plus the [transfer_in]
    and [koreksi] quantities ([koreksi_pagi] is not part of it); and
    [night_stock = morning_stock + incoming + returns - sold + adjustment]. *)
Theorem C1_day_aggregates_and_closing p_from_date p_to_date p_location_id
    p_phone_model_id p_imei s c s' u d :
  cascade_recalc_stock entry_accepted p_from_date p_to_date p_location_id
    p_phone_model_id p_imei s = Ok c s' →
  affected p_from_date p_to_date p_location_id p_phone_model_id p_imei
    (stock_events s) u →
  p_from_date ≤ d ≤ p_to_date →
  key_of d u ∈ upsert_keys (new_trace s s')
  ∧ ∃ v_morning_stock,
      stock_entries s' !! key_of d u
      = Some (spec_balance v_morning_stock u d (stock_events s)).
Proof.
  intros Hrun Hu%affected_units_spec Hd.
  apply cascade_recalc_stock_ok in Hrun as (_ & _ & _ & Hup & Hrows).
  split.
  - rewrite Hup. apply elem_of_schedule.
    by rewrite key_unit_key_of, key_date_key_of.
  - destruct (Hrows u d Hu Hd) as [Hrow _]. simpl in Hrow.
    rewrite balance_row_spec in Hrow. eauto.
Qed.

(** ** The opening of the first day *)

Lemma day_loop_first_row p_from_date p_to_date u c s c' s' :
  p_from_date ≤ p_to_date →
  day_loop entry_accepted p_from_date p_to_date u p_from_date c s = Ok c' s' →
  stock_entries s' !! key_of p_from_date u
  = Some (day_row p_from_date (stock_entries s) (stock_events s) u p_from_date).
Proof.
  intros Hle. rewrite day_loop_step, decide_True by done.
  rewrite day_block_run. cbv zeta.
  destruct (entry_accepted _ _); [|done].
  match goal with |- day_loop _ _ _ _ _ _ ?s1 = _ → _ => set (s1' := s1) end.
  intros Hrest.
  pose proof (day_loop_frame p_from_date p_to_date u _ (p_from_date + 1)
                (c.1 + 1, c.2 + 1) s1' (key_of p_from_date u) eq_refl) as Hfr.
  rewrite Hrest in Hfr. simpl in Hfr.
  rewrite Hfr; [by rewrite lookup_insert_eq|].
  rewrite key_date_key_of. lia.
Qed.

Lemma unit_loop_first_row p_from_date p_to_date us : ∀ c s c' s' u,
  p_from_date ≤ p_to_date →
  NoDup us → u ∈ us →
  unit_loop entry_accepted p_from_date p_to_date us c s = Ok c' s' →
  stock_entries s' !! key_of p_from_date u
  = Some (day_row p_from_date (stock_entries s) (stock_events s) u p_from_date).
Proof.
  induction us as [|u0 us IH]; intros c s c' s' u Hle Hnd Hu; simpl.
  { by apply elem_of_nil in Hu. }
  unfold mbind, M_bind.
  destruct (day_loop _ _ _ _ _ _ _) as [c1 s1|e s1] eqn:Hday; [|done].
  intros Hrest.
  apply NoDup_cons in Hnd as [Hu0 Hnd].
  pose proof (day_loop_confined p_from_date p_to_date u0 _ p_from_date c s
                eq_refl (Z.le_refl _)) as (Hev1 & _ & Hfr1).
  rewrite Hday in Hev1, Hfr1. simpl in Hev1, Hfr1.
  pose proof (unit_loop_confined p_from_date p_to_date us c1 s1)
    as (_ & _ & Hfr).
  rewrite Hrest in Hfr. simpl in Hfr.
  apply elem_of_cons in Hu as [->|Hu].
  - rewrite Hfr; [by eapply day_loop_first_row|].
    rewrite key_unit_key_of. tauto.
  - rewrite (IH _ _ _ _ u Hle Hnd Hu Hrest), Hev1. f_equal.
    apply day_row_ext, Hfr1.
    rewrite key_unit_read_key. intros [-> _]. done.
Qed.

(** What the first day of the range opens with: the [morning_stock] stored
    for [p_from_date] when the unit has a row for that day, and 0 when it
    has none. The row of the day before [p_from_date] is not consulted. *)
Lemma first_day_opening p_from_date p_to_date p_location_id p_phone_model_id
    p_imei s c s' u :
  cascade_recalc_stock entry_accepted p_from_date p_to_date p_location_id
    p_phone_model_id p_imei s = Ok c s' →
  u ∈ affected_units p_from_date p_to_date p_location_id p_phone_model_id
        p_imei (stock_events s) →
  morning_stock <$> stock_entries s' !! key_of p_from_date u
  = Some (Some
      match stock_entries s !! key_of p_from_date u with
      | Some r => COALESCE (morning_stock r) 0
      | None => 0
      end).
Proof.
  intros Hrun Hu. unfold cascade_recalc_stock in Hrun.
  case_decide; [done|].
  assert (p_from_date ≤ p_to_date) as Hle by lia.
  rewrite (unit_loop_first_row _ _ _ _ _ _ _ u Hle
             (NoDup_affected_units _ _ _ _ _ _) Hu Hrun).
  simpl. unfold opening. rewrite decide_False by lia.
  by destruct (stock_entries s !! _).
Qed.

(** ** Chain continuity *)

(** Inside the range, a day opens with the closing written for the day
    before; what events the day has plays no part. *)
Lemma chain_continuity p_from_date p_to_date p_location_id p_phone_model_id
    p_imei s c s' u d :
  cascade_recalc_stock entry_accepted p_from_date p_to_date p_location_id
    p_phone_model_id p_imei s = Ok c s' →
  u ∈ affected_units p_from_date p_to_date p_location_id p_phone_model_id
        p_imei (stock_events s) →
  p_from_date ≤ d → d + 1 ≤ p_to_date →
  ∃ r r' closing,
    stock_entries s' !! key_of d u = Some r
    ∧ stock_entries s' !! key_of (d + 1) u = Some r'
    ∧ night_stock r = Some closing
    ∧ morning_stock r' = Some closing.
Proof.
  intros Hrun Hu Hd Hd'.
  apply cascade_recalc_stock_ok in Hrun as (_ & _ & _ & _ & Hrows).
  destruct (Hrows u d Hu) as [Hr _]; [lia|].
  destruct (Hrows u (d + 1) Hu) as [Hr' _]; [lia|].
  simpl in *.
  destruct (night_stock_day_row p_from_date (stock_entries s')
              (stock_events s) u d) as [closing Hn].
  eexists _, _, closing. split; [exact Hr|]. split; [exact Hr'|].
  split; [exact Hn|].
  rewrite morning_stock_day_row. f_equal.
  unfold opening. rewrite decide_True by lia.
  replace (d + 1 - 1) with d by lia. rewrite Hr.
  change (COALESCE (night_stock (day_row p_from_date (stock_entries s')
                                   (stock_events s) u d)) 0 = closing).
  by rewrite Hn.
Qed.

(** C4. After a completed run, for an affected unit and two consecutive
    days [d] and [d + 1] of the range with no [koreksi_pagi] event on
    [d + 1], the [night_stock] written for [d] is the [morning_stock]
    written for [d + 1]. *)
Theorem C4_closing_is_next_opening p_from_date p_to_date p_location_id
    p_phone_model_id p_imei s c s' u d :
  cascade_recalc_stock entry_accepted p_from_date p_to_date p_location_id
    p_phone_model_id p_imei s = Ok c s' →
  affected p_from_date p_to_date p_location_id p_phone_model_id p_imei
    (stock_events s) u →
  p_from_date ≤ d → d + 1 ≤ p_to_date →
  Forall (λ e, event_type e ≠ "koreksi_pagi")
    (day_events u (d + 1) (stock_events s)) →
  ∃ r r' closing,
    stock_entries s' !! key_of d u = Some r
    ∧ stock_entries s' !! key_of (d + 1) u = Some r'
    ∧ night_stock r = Some closing
    ∧ morning_stock r' = Some closing.
Proof.
  intros Hrun Hu%affected_units_spec Hd Hd' _.
  by eapply chain_continuity.
Qed.

(** ** Idempotence *)

(** On a table whose rows for the unit are already the rows their days
    compute, the day loop completes and leaves the table as it is. *)
Lemma day_loop_fixed p_from_date p_to_date u E evs n :
  (∀ d, p_from_date ≤ d ≤ p_to_date →
     E !! key_of d u = Some (day_row p_from_date E evs u d)
     ∧ entry_accepted (key_of d u) (day_row p_from_date E evs u d) = true) →
  ∀ d c s,
    Z.to_nat (p_to_date + 1 - d) = n →
    p_from_date ≤ d →
    stock_entries s = E → stock_events s = evs →
    ∃ s', day_loop entry_accepted p_from_date p_to_date u d c s
          = Ok (c.1 + Z.of_nat n, c.2 + Z.of_nat n) s'
          ∧ stock_entries s' = E ∧ stock_events s' = evs.
Proof.
  intros Hfix.
  induction n as [|n IH]; intros d c s Hn Hd HE Hevs; rewrite day_loop_step.
  - case_decide; [lia|]. exists s. split; [|done].
    destruct c; simpl; do 2 f_equal; lia.
  - case_decide; [|lia].
    rewrite day_block_run. cbv zeta. rewrite HE, Hevs.
    destruct (Hfix d) as [Hrow ->]; [lia|].
    edestruct (IH (d + 1) (c.1 + 1, c.2 + 1)) as (s' & -> & HE' & Hevs');
      [lia|lia| | |].
    3:{ exists s'. split; [|done]. simpl. do 2 f_equal; lia. }
    + simpl. by apply insert_id.
    + done.
Qed.

Lemma unit_loop_fixed p_from_date p_to_date E evs us :
  (∀ u d, u ∈ us → p_from_date ≤ d ≤ p_to_date →
     E !! key_of d u = Some (day_row p_from_date E evs u d)
     ∧ entry_accepted (key_of d u) (day_row p_from_date E evs u d) = true) →
  ∀ c s,
    stock_entries s = E → stock_events s = evs →
    let n := Z.of_nat (length us)
             * Z.of_nat (Z.to_nat (p_to_date + 1 - p_from_date)) in
    ∃ s', unit_loop entry_accepted p_from_date p_to_date us c s
          = Ok (c.1 + n, c.2 + n) s'
          ∧ stock_entries s' = E ∧ stock_events s' = evs.
Proof.
  induction us as [|u us IH]; intros Hfix c s HE Hevs; simpl.
  - exists s. split; [|done]. destruct c; simpl; do 2 f_equal; lia.
  - unfold mbind, M_bind.
    edestruct (day_loop_fixed p_from_date p_to_date u E evs _
                 (λ d Hd, Hfix u d (list_elem_of_here _ _) Hd)
                 p_from_date c s eq_refl (Z.le_refl _) HE Hevs)
      as (s1 & -> & HE1 & Hevs1).
    edestruct IH as (s' & -> & HE' & Hevs'); [|exact HE1|exact Hevs1|].
    + intros u' d Hu'. apply Hfix. by right.
    + exists s'. split; [|done]. simpl. do 2 f_equal; lia.
Qed.

(** A second run right after a completed run completes with the same
    counters and leaves both tables as they are. *)
Lemma recalculation_fixed_point p_from_date p_to_date p_location_id
    p_phone_model_id p_imei s c s1 :
  cascade_recalc_stock entry_accepted p_from_date p_to_date p_location_id
    p_phone_model_id p_imei s = Ok c s1 →
  ∃ s2,
    cascade_recalc_stock entry_accepted p_from_date p_to_date p_location_id
      p_phone_model_id p_imei s1 = Ok c s2
    ∧ stock_entries s2 = stock_entries s1
    ∧ stock_events s2 = stock_events s1.
Proof.
  intros Hrun.
  apply cascade_recalc_stock_ok in Hrun as (Hle & Hev & -> & _ & Hrows).
  unfold cascade_recalc_stock. rewrite decide_False by lia. rewrite Hev.
  edestruct (unit_loop_fixed p_from_date p_to_date (stock_entries s1)
               (stock_events s) _ Hrows (0, 0) s1 eq_refl Hev)
    as (s2 & -> & HE & Hevs).
  exists s2. split; [|split; congruence].
  simpl. do 2 f_equal; lia.
Qed.

(** What a run does to the tables does not depend on the trace. *)
Lemma day_block_same_tables p_from_date u d s t :
  same_tables s t →
  same_outcome (day_block entry_accepted p_from_date u d s)
    (day_block entry_accepted p_from_date u d t).
Proof.
  intros [Hev HE]. rewrite !day_block_run. cbv zeta. rewrite Hev, HE.
  destruct (entry_accepted _ _); simpl; unfold same_tables; simpl;
    by rewrite ?Hev, ?HE.
Qed.

Lemma day_loop_same_tables p_from_date p_to_date u n : ∀ d c s t,
  Z.to_nat (p_to_date + 1 - d) = n →
  same_tables s t →
  same_outcome (day_loop entry_accepted p_from_date p_to_date u d c s)
    (day_loop entry_accepted p_from_date p_to_date u d c t).
Proof.
  induction n as [|n IH]; intros d c s t Hn Hst; rewrite !day_loop_step.
  - by case_decide; [lia|].
  - case_decide; [|lia].
    pose proof (day_block_same_tables p_from_date u d s t Hst) as Hb.
    destruct (day_block _ _ _ _ s) as [[] s1|e s1],
      (day_block _ _ _ _ t) as [[] t1|e' t1]; try done.
    destruct Hb as [_ Hst1]. apply IH; [lia|done].
Qed.

Lemma unit_loop_same_tables p_from_date p_to_date us : ∀ c s t,
  same_tables s t →
  same_outcome (unit_loop entry_accepted p_from_date p_to_date us c s)
    (unit_loop entry_accepted p_from_date p_to_date us c t).
Proof.
  induction us as [|u us IH]; intros c s t Hst; simpl; [done|].
  unfold mbind, M_bind.
  pose proof (day_loop_same_tables p_from_date p_to_date u _ p_from_date c
                s t eq_refl Hst) as Hd.
  destruct (day_loop _ _ _ _ _ _ s) as [c1 s1|e s1],
    (day_loop _ _ _ _ _ _ t) as [c1' t1|e' t1]; try done.
  destruct Hd as [<- Hst1]. by apply IH.
Qed.

Lemma cascade_recalc_stock_same_tables p_from_date p_to_date p_location_id
    p_phone_model_id p_imei s t :
  same_tables s t →
  same_outcome
    (cascade_recalc_stock entry_accepted p_from_date p_to_date p_location_id
       p_phone_model_id p_imei s)
    (cascade_recalc_stock entry_accepted p_from_date p_to_date p_location_id
       p_phone_model_id p_imei t).
Proof.
  intros Hst. unfold cascade_recalc_stock. case_decide; [done|].
  destruct Hst as [Hev HE]. rewrite Hev. by apply unit_loop_same_tables.
Qed.

(** C5. Calling the procedure twice in a row over the same range and
    filters, with [stock_events] unchanged in between, gives the second
    time the result of the first (the same counters, or the same
    exception) and leaves [stock_entries] exactly as the first call left
    it: every row keeps its six stock columns. *)
Theorem C5_recalculation_idempotent p_from_date p_to_date p_location_id
    p_phone_model_id p_imei s :
  let Recalculate :=
    statement (cascade_recalc_stock entry_accepted p_from_date p_to_date
                 p_location_id p_phone_model_id p_imei) in
  let first := Recalculate s in
  let second := Recalculate first.2 in
  second.1 = first.1
  ∧ stock_entries second.2 = stock_entries first.2
  ∧ stock_events second.2 = stock_events first.2.
Proof.
  intros Recalculate first second. subst second first Recalculate.
  unfold statement.
  destruct (cascade_recalc_stock _ _ _ _ _ _ s) as [c s1|e sf] eqn:Hrun.
  - simpl. apply recalculation_fixed_point in Hrun as (s2 & -> & HE & Hev).
    done.
  - simpl.
    pose proof (cascade_recalc_stock_same_tables p_from_date p_to_date
                  p_location_id p_phone_model_id p_imei s (rollback s sf))
      as Hsame.
    rewrite Hrun in Hsame.
    destruct (cascade_recalc_stock _ _ _ _ _ _ (rollback s sf)) as [c s2|e' sf'].
    + by destruct Hsame.
    + destruct Hsame as [<- _]; done.
Qed.

(** ** Input validation *)

(** C7. With [p_from_date > p_to_date] the procedure raises its
    invalid-range exception in the state it was called in: the trace has
    no statement on [stock_entries], and no table has changed. *)
Theorem C7_invalid_range_rejected p_from_date p_to_date p_location_id
    p_phone_model_id p_imei s :
  p_from_date > p_to_date →
  cascade_recalc_stock entry_accepted p_from_date p_to_date p_location_id
    p_phone_model_id p_imei s
  = Raise "from_date cannot be greater than to_date" s.
Proof.
  intros Hgt. unfold cascade_recalc_stock. by rewrite decide_True.
Qed.

(** ** One upsert per unit and day *)

Lemma NoDup_schedule us p_from_date p_to_date :
  NoDup us → NoDup (schedule us p_from_date p_to_date).
Proof.
  intros Hnd. unfold schedule. apply NoDup_bind; [| |done].
  - intros u1 u2 k _ _ (d1 & -> & _)%list_elem_of_fmap
      (d2 & Hk & _)%list_elem_of_fmap.
    by apply key_of_inj in Hk as [_ ?].
  - intros u _. apply NoDup_fmap_2_strong; [|apply NoDup_seqZ].
    intros d1 d2 _ _ Hk. by apply key_of_inj in Hk as [? _].
Qed.

Lemma length_schedule us p_from_date p_to_date :
  p_from_date ≤ p_to_date →
  Z.of_nat (length (schedule us p_from_date p_to_date))
  = Z.of_nat (length us) * (p_to_date + 1 - p_from_date).
Proof.
  intros Hle. unfold schedule.
  induction us as [|u us IH]; [done|].
  change ((u :: us) ≫= ?f) with (f u ++ (us ≫= f)).
  rewrite length_app, length_fmap, length_seqZ. simpl length. lia.
Qed.

(** C10. A completed run upserts one row for each affected unit and each
    day of the range, and no other row: the upserted keys are pairwise
    distinct, they are the keys of the affected units on the days of the
    range (whatever events a day has), and each of these rows is in the
    table afterwards. Both counters are the number of these upserts, the
    number of affected units times the number of days. *)
Theorem C10_one_upsert_per_unit_and_day p_from_date p_to_date p_location_id
    p_phone_model_id p_imei s c s' :
  cascade_recalc_stock entry_accepted p_from_date p_to_date p_location_id
    p_phone_model_id p_imei s = Ok c s' →
  let us := affected_units p_from_date p_to_date p_location_id
              p_phone_model_id p_imei (stock_events s) in
  let written := upsert_keys (new_trace s s') in
  (NoDup us
   ∧ ∀ u, u ∈ us ↔ affected p_from_date p_to_date p_location_id
                      p_phone_model_id p_imei (stock_events s) u)
  ∧ NoDup written
  ∧ (∀ u d, key_of d u ∈ written ↔ u ∈ us ∧ p_from_date ≤ d ≤ p_to_date)
  ∧ (∀ u d, u ∈ us → p_from_date ≤ d ≤ p_to_date →
       is_Some (stock_entries s' !! key_of d u))
  ∧ c.1 = c.2
  ∧ c.2 = Z.of_nat (length written)
  ∧ c.1 = Z.of_nat (length us) * (p_to_date + 1 - p_from_date).
Proof.
  intros Hrun us written.
  apply cascade_recalc_stock_ok in Hrun as (Hle & _ & -> & Hup & Hrows).
  fold us in Hup, Hrows. fold written in Hup.
  split; [split; [apply NoDup_affected_units|apply affected_units_spec]|].
  rewrite Hup. split; [apply NoDup_schedule, NoDup_affected_units|].
  split; [|split; [|split; [|split]]].
  - intros u d. by rewrite elem_of_schedule, key_unit_key_of, key_date_key_of.
  - intros u d Hu Hd. destruct (Hrows u d Hu Hd) as [-> _]. by eexists.
  - done.
  - simpl. by rewrite length_schedule.
  - done.
Qed.

(** ** The rows a run leaves alone *)

(** C9. Whether the run completes or raises, every statement it executes
    on [stock_entries], read or write, has the key of an affected unit (a
    unit with an event in the range that matches the filters and carries a
    non-empty [imei]) on a day of the range, and the row of any other unit
    is as it was, also once the calling statement has ended. With a
    location filter, every statement is on a row of that location. *)
Theorem C9_other_units_untouched p_from_date p_to_date p_location_id
    p_phone_model_id p_imei s :
  let run := cascade_recalc_stock entry_accepted p_from_date p_to_date
               p_location_id p_phone_model_id p_imei in
  let is_affected := affected p_from_date p_to_date p_location_id
                       p_phone_model_id p_imei (stock_events s) in
  (∀ a, a ∈ new_trace s (final_state (run s)) →
     is_affected (key_unit (access_key a))
     ∧ p_from_date ≤ key_date (access_key a) ≤ p_to_date
     ∧ (key_unit (access_key a)).2 ≠ ""
     ∧ ∀ l, p_location_id = Some l → (key_unit (access_key a)).1.1 = l)
  ∧ (∀ k, ¬ is_affected (key_unit k) →
       stock_entries (final_state (run s)) !! k = stock_entries s !! k
       ∧ stock_entries (statement run s).2 !! k = stock_entries s !! k).
Proof.
  intros run is_affected.
  pose proof (cascade_recalc_stock_confined p_from_date p_to_date
                p_location_id p_phone_model_id p_imei s)
    as (_ & (t & Ht & HP) & Hfr).
  fold run in Ht, Hfr. split.
  - rewrite (new_trace_app _ _ t Ht). intros a Ha.
    rewrite Forall_forall in HP. destruct (HP a Ha) as [Hu Hd].
    apply affected_units_spec in Hu. split; [done|]. split; [done|].
    destruct Hu as (e & _ & _ & Hl & _ & _ & _ & Hne & Heq).
    split; [done|]. intros l Hpl. rewrite <- Heq. simpl. by apply Hl.
  - intros k Hk.
    assert (stock_entries (final_state (run s)) !! k = stock_entries s !! k)
      as Hsame.
    { apply Hfr. intros [Hu _]. by apply Hk, affected_units_spec. }
    split; [done|].
    unfold statement. by destruct (run s).
Qed.

(** ** The trigger *)

(** C6. A statement that creates, updates or deletes an event changes
    [stock_events] and then runs the recalculation from the event's date to
    [CURRENT_DATE], filtered on the event's location, model and imei: the
    new row for an insert or an update, the row as it was before removal
    for a delete. Both happen in one statement: when the recalculation
    raises, the change of the event is undone with it. *)
Theorem C6_trigger_recalculates_from_event st CURRENT_DATE s e :
  changed_event st (stock_events s) = Some e →
  match Recalculate_for entry_accepted e CURRENT_DATE
          (with_stock_events (changed_table st (stock_events s)) s) with
  | Ok _ s' =>
      statement (run_dml entry_accepted st CURRENT_DATE) s = (inr (), s')
  | Raise x s' =>
      statement (run_dml entry_accepted st CURRENT_DATE) s
      = (inl x, rollback s s')
  end.
Proof.
  unfold statement, run_dml, Recalculate_for, trigger_cascade_recalc.
  unfold mbind, M_bind, mret, M_ret, set_stock_events, with_stock_events.
  destruct st as [NEW|i NEW|i]; simpl.
  - intros [= <-]. by destruct (cascade_recalc_stock _ _ _ _ _ _ _).
  - destruct (stock_events s !! i) as [OLD|]; [|done]. intros [= <-].
    by destruct (cascade_recalc_stock _ _ _ _ _ _ _).
  - destruct (stock_events s !! i) as [OLD|]; [|done]. intros [= <-].
    by destruct (cascade_recalc_stock _ _ _ _ _ _ _).
Qed.

End Properties.

(** ** Failure of an upsert *)

Section Failure.

Variable entry_accepted : entry_key → stock_entry → bool.

Lemma stops_bind {A B} (m m' : M A) (f f' : A → M B) s :
  stops_at_first_rejection entry_accepted s (m s) (m' s) →
  (∀ a s1, stops_at_first_rejection entry_accepted s1 (f a s1) (f' a s1)) →
  (∀ a, completes (f' a)) →
  stops_at_first_rejection entry_accepted s ((m ≫= f) s) ((m' ≫= f') s).
Proof.
  intros Hm Hf Hc. unfold mbind, M_bind.
  destruct Hm as [a s1 t Ht Hacc|e sf a s1 t k r t' Ht Hacc Hrej Ht'].
  - destruct (Hf a s1) as [b s2 t2 Ht2 Hacc2|e sf b s2 t2 k r t' Ht2 Hacc2 Hrej Ht'].
    + apply (run_completes _ _ _ _ (t ++ t2)).
      * by rewrite Ht2, Ht, app_assoc.
      * by apply Forall_app.
    + apply (run_stops _ _ _ _ _ _ (t ++ t2) k r t'); [|by apply Forall_app|done|].
      * by rewrite Ht2, Ht, app_assoc.
      * by rewrite Ht', Ht, <- !app_assoc.
  - destruct (Hc a s1) as (b & s2 & t2 & -> & Ht2).
    apply (run_stops _ _ _ _ _ _ t k r (t' ++ t2)); [done..|].
    rewrite Ht2, Ht', <- !app_assoc. done.
Qed.

Lemma day_block_stops p_from_date u d s :
  stops_at_first_rejection entry_accepted s
    (day_block entry_accepted p_from_date u d s)
    (day_block accept_all p_from_date u d s).
Proof.
  rewrite (day_block_run entry_accepted), (day_block_run accept_all).
  cbv zeta. unfold accept_all at 1.
  destruct (entry_accepted _ _) eqn:Hacc.
  - eapply run_completes; [done|]. by repeat constructor.
  - eapply (run_stops _ _ _ _ _ _ _ _ _ []); [done| |exact Hacc|].
    + by repeat constructor.
    + done.
Qed.

Lemma day_block_completes p_from_date u d :
  completes (day_block accept_all p_from_date u d).
Proof. intros s. rewrite day_block_run. cbv zeta. by eexists _, _, _. Qed.

Lemma day_loop_completes p_from_date p_to_date u n : ∀ d c,
  Z.to_nat (p_to_date + 1 - d) = n →
  completes (day_loop accept_all p_from_date p_to_date u d c).
Proof.
  induction n as [|n IH]; intros d c Hn s; rewrite day_loop_step.
  - case_decide; [lia|]. exists c, s, []. by rewrite app_nil_r.
  - case_decide; [|lia].
    destruct (day_block_completes p_from_date u d s) as ([] & s1 & t1 & -> & Ht1).
    destruct (IH (d + 1) (c.1 + 1, c.2 + 1) ltac:(lia) s1)
      as (c' & s' & t & -> & Ht).
    exists c', s', (t1 ++ t). by rewrite Ht, Ht1, app_assoc.
Qed.

Lemma day_loop_stops p_from_date p_to_date u n : ∀ d c s,
  Z.to_nat (p_to_date + 1 - d) = n →
  stops_at_first_rejection entry_accepted s
    (day_loop entry_accepted p_from_date p_to_date u d c s)
    (day_loop accept_all p_from_date p_to_date u d c s).
Proof.
  induction n as [|n IH]; intros d c s Hn; rewrite !day_loop_step.
  - case_decide; [lia|]. apply (run_completes _ _ _ _ []); [|done].
    by rewrite app_nil_r.
  - case_decide; [|lia].
    apply (stops_bind
             (day_block entry_accepted p_from_date u d)
             (day_block accept_all p_from_date u d)
             (λ _, day_loop entry_accepted p_from_date p_to_date u (d + 1)
                     (c.1 + 1, c.2 + 1))
             (λ _, day_loop accept_all p_from_date p_to_date u (d + 1)
                     (c.1 + 1, c.2 + 1))).
    + apply day_block_stops.
    + intros _ s1. apply IH. lia.
    + intros _. apply (day_loop_completes _ _ _ n). lia.
Qed.

Lemma unit_loop_completes p_from_date p_to_date us : ∀ c,
  completes (unit_loop accept_all p_from_date p_to_date us c).
Proof.
  induction us as [|u us IH]; intros c s; simpl.
  - exists c, s, []. by rewrite app_nil_r.
  - unfold mbind, M_bind.
    destruct (day_loop_completes p_from_date p_to_date u _ p_from_date c
                eq_refl s) as (c1 & s1 & t1 & -> & Ht1).
    destruct (IH c1 s1) as (c' & s' & t & -> & Ht).
    exists c', s', (t1 ++ t). by rewrite Ht, Ht1, app_assoc.
Qed.

Lemma unit_loop_stops p_from_date p_to_date us : ∀ c s,
  stops_at_first_rejection entry_accepted s
    (unit_loop entry_accepted p_from_date p_to_date us c s)
    (unit_loop accept_all p_from_date p_to_date us c s).
Proof.
  induction us as [|u us IH]; intros c s; simpl.
  - apply (run_completes _ _ _ _ []); [|done]. by rewrite app_nil_r.
  - apply stops_bind.
    + by eapply day_loop_stops.
    + intros c1 s1. apply IH.
    + intros c1. apply unit_loop_completes.
Qed.

Lemma new_trace_same s : new_trace s s = [].
Proof. unfold new_trace. by rewrite drop_all. Qed.

(** C8, as the code has it. When the table rejects a row that the run
    computes, the procedure raises at the first such row: it has executed
    the statements of the unconstrained run up to that upsert and none
    after it, so no later day and no later unit is attempted and no error
    is collected. The calling statement fails with that one exception and
    leaves [stock_entries] as it was before the call: the rows already
    written, for whatever unit, are rolled back. *)
Theorem C8_failed_upsert_aborts_whole_run p_from_date p_to_date
    p_location_id p_phone_model_id p_imei s k r :
  let run := cascade_recalc_stock entry_accepted p_from_date p_to_date
               p_location_id p_phone_model_id p_imei in
  let unconstrained :=
    final_state (cascade_recalc_stock accept_all p_from_date p_to_date
                   p_location_id p_phone_model_id p_imei s) in
  UPSERT_entry k r ∈ new_trace s unconstrained →
  entry_accepted k r = false →
  ∃ e sf t k0 r0 t',
    run s = Raise e sf
    ∧ new_trace s unconstrained = t ++ UPSERT_entry k0 r0 :: t'
    ∧ Forall (accepted_access entry_accepted) t
    ∧ entry_accepted k0 r0 = false
    ∧ new_trace s sf = t
    ∧ statement run s = (inl e, rollback s sf)
    ∧ stock_entries (statement run s).2 = stock_entries s.
Proof.
  intros run unconstrained Hin Hrej. subst run unconstrained.
  unfold statement, cascade_recalc_stock in *.
  destruct (decide (p_from_date > p_to_date)).
  { simpl in Hin. rewrite new_trace_same in Hin. by apply elem_of_nil in Hin. }
  pose proof (unit_loop_stops p_from_date p_to_date
                (affected_units p_from_date p_to_date p_location_id
                   p_phone_model_id p_imei (stock_events s)) (0, 0) s) as Hcmp.
  inversion Hcmp as [a s' t Ht Hacc Ho Ho'|e sf a s' t k0 r0 t' Ht Hacc Hrej0 Ht' Ho Ho'].
  - rewrite <- Ho' in Hin. simpl in Hin.
    rewrite (new_trace_app _ _ t Ht) in Hin.
    rewrite Forall_forall in Hacc. apply Hacc in Hin. simpl in Hin. congruence.
  - exists e, sf, t, k0, r0, t'. simpl.
    split; [done|]. split; [by apply new_trace_app|].
    split; [done|]. split; [done|]. split; [by apply new_trace_app|done].
Qed.

End Failure.

(** * Beyond the day: what a whole run computes *)

Section Closed_form.

Variable entry_accepted : entry_key → stock_entry → bool.

Lemma night_stock_balance_row m u d evs :
  night_stock (balance_row m (day_events u d evs)) = Some (m + day_flow u d evs).
Proof. unfold balance_row, day_flow. simpl. f_equal. lia. Qed.

Lemma flows_nil u evs d n : n ≤ 0 → flows u evs d n = 0.
Proof.
  intros Hn. unfold flows, seqZ.
  by replace (Z.to_nat n) with 0%nat by lia.
Qed.

Lemma foldr_add_init (l : list Z) a :
  foldr Z.add a l = foldr Z.add 0 l + a.
Proof. induction l as [|x l IH]; simpl; lia. Qed.

Lemma flows_snoc u evs d n :
  0 ≤ n → flows u evs d (n + 1) = flows u evs d n + day_flow u (d + n) evs.
Proof.
  intros Hn. unfold flows.
  rewrite seqZ_app by lia. rewrite fmap_app, foldr_app. simpl.
  change (Z.of_nat 0 + (d + n)) with (d + n).
  rewrite foldr_add_init. lia.
Qed.

Lemma opening_after p_from_date E r u d :
  d > p_from_date →
  E !! key_of (d - 1) u = Some r →
  opening p_from_date E u d = COALESCE (night_stock r) 0.
Proof. intros Hd Hr. unfold opening. by rewrite decide_True, Hr. Qed.

(** Every row of a completed run is the row of the closed form, computed
    from the tables as they were before the run. *)
Lemma rows_closed_form p_from_date p_to_date p_location_id p_phone_model_id
    p_imei s c s' u :
  cascade_recalc_stock entry_accepted p_from_date p_to_date p_location_id
    p_phone_model_id p_imei s = Ok c s' →
  u ∈ affected_units p_from_date p_to_date p_location_id p_phone_model_id
        p_imei (stock_events s) →
  ∀ n d, d = p_from_date + Z.of_nat n → d ≤ p_to_date →
    stock_entries s' !! key_of d u
    = Some (closed_form_row p_from_date (stock_entries s) (stock_events s) u d).
Proof.
  intros Hrun Hu.
  pose proof (first_day_opening entry_accepted _ _ _ _ _ _ _ _ _ Hrun Hu)
    as Hfirst.
  apply cascade_recalc_stock_ok in Hrun as (_ & _ & _ & _ & Hrows).
  induction n as [|n IH]; intros d -> Hd.
  - replace (p_from_date + Z.of_nat 0) with p_from_date in * by lia.
    destruct (Hrows u p_from_date Hu) as [Hrow _]; [lia|]. simpl in Hrow.
    rewrite Hrow in Hfirst. injection Hfirst as Hop.
    rewrite Hrow. f_equal.
    unfold day_row, closed_form_row, opening_on, first_opening. f_equal.
    rewrite Hop, Z.sub_diag, flows_nil by lia. lia.
  - destruct (Hrows u (p_from_date + Z.of_nat (S n)) Hu) as [Hrow _]; [lia|].
    simpl in Hrow. rewrite Hrow. f_equal.
    unfold day_row, closed_form_row. f_equal.
    rewrite (opening_after _ _
               (closed_form_row p_from_date (stock_entries s) (stock_events s)
                  u (p_from_date + Z.of_nat n))); [|lia|].
    + unfold closed_form_row. rewrite night_stock_balance_row. simpl.
      unfold opening_on.
      replace (p_from_date + Z.of_nat (S n) - p_from_date)
        with (Z.of_nat n + 1) by lia.
      rewrite flows_snoc by lia.
      replace (p_from_date + Z.of_nat n - p_from_date) with (Z.of_nat n)
        by lia.
      lia.
    + replace (p_from_date + Z.of_nat (S n) - 1)
        with (p_from_date + Z.of_nat n) by lia.
      apply IH; [done|lia].
Qed.



Lemma opening_first_day p_from_date E u :
  opening p_from_date E u p_from_date = first_opening p_from_date E u.
Proof.
  unfold opening, first_opening. rewrite decide_False by lia.
  by destruct (E !! _).
Qed.




(** X1. After a completed run, the closing of an affected unit on a day of
    the range is a running total: the opening of the first day of the
    range (the [morning_stock] stored for that day before the run, 0
    without a row) plus the net flows of all days from the first up to
    that day. *)
Theorem closing_is_running_total p_from_date p_to_date p_location_id
    p_phone_model_id p_imei s c s' u d :
  cascade_recalc_stock entry_accepted p_from_date p_to_date p_location_id
    p_phone_model_id p_imei s = Ok c s' →
  u ∈ affected_units p_from_date p_to_date p_location_id p_phone_model_id
        p_imei (stock_events s) →
  p_from_date ≤ d ≤ p_to_date →
  night_stock <$> stock_entries s' !! key_of d u
  = Some (Some (first_opening p_from_date (stock_entries s) u
                + flows u (stock_events s) p_from_date (d - p_from_date + 1))).
Proof.
  intros Hrun Hu Hd.
  rewrite (rows_closed_form _ _ _ _ _ _ _ _ _ Hrun Hu
             (Z.to_nat (d - p_from_date)) d) by lia.
  unfold closed_form_row. cbn [fmap option_fmap option_map].
  rewrite night_stock_balance_row.
  unfold opening_on. rewrite flows_snoc by lia.
  replace (p_from_date + (d - p_from_date)) with d by lia.
  do 2 f_equal. lia.
Qed.



(** X3. Once a run over a range has completed, a run with the same filters
    over any part of that range completes and leaves every row of
    [stock_entries] as it is; it returns the number of rows it rewrote. *)
Theorem subrange_rerun_changes_nothing p_from_date p_to_date p_location_id
    p_phone_model_id p_imei s c s1 p_from_date' p_to_date' :
  cascade_recalc_stock entry_accepted p_from_date p_to_date p_location_id
    p_phone_model_id p_imei s = Ok c s1 →
  p_from_date ≤ p_from_date' → p_from_date' ≤ p_to_date' →
  p_to_date' ≤ p_to_date →
  let n := Z.of_nat (length (affected_units p_from_date' p_to_date'
                               p_location_id p_phone_model_id p_imei
                               (stock_events s1)))
           * (p_to_date' + 1 - p_from_date') in
  ∃ s2,
    cascade_recalc_stock entry_accepted p_from_date' p_to_date'
      p_location_id p_phone_model_id p_imei s1 = Ok (n, n) s2
    ∧ stock_entries s2 = stock_entries s1
    ∧ stock_events s2 = stock_events s1.
Proof.
  intros Hrun Hfrom Hle Hto n.
  apply cascade_recalc_stock_ok in Hrun as (_ & Hev & _ & _ & Hrows).
  unfold cascade_recalc_stock. rewrite decide_False by lia.
  edestruct (unit_loop_fixed entry_accepted p_from_date' p_to_date'
               (stock_entries s1) (stock_events s1)
               (affected_units p_from_date' p_to_date' p_location_id
                  p_phone_model_id p_imei (stock_events s1)))
    as (s2 & Hrun2 & HE & Hevs).
  - intros u d Hu Hd.
    assert (u ∈ affected_units p_from_date p_to_date p_location_id
                  p_phone_model_id p_imei (stock_events s)) as Hu'.
    { rewrite affected_units_spec in Hu |- *. rewrite <- Hev.
      destruct Hu as (e & He & Hde & Hrest). exists e.
      split; [done|]. split; [lia|done]. }
    assert (∀ d', p_from_date ≤ d' ≤ p_to_date →
              stock_entries s1 !! key_of d' u
              = Some (day_row p_from_date (stock_entries s1) (stock_events s)
                        u d')) as Hrow.
    { intros d' Hd'. by destruct (Hrows u d' Hu' Hd'). }
    assert (day_row p_from_date' (stock_entries s1) (stock_events s1) u d
            = day_row p_from_date (stock_entries s1) (stock_events s) u d)
      as ->.
    { rewrite Hev. unfold day_row. f_equal.
      destruct (decide (d > p_from_date')) as [Hgt|Hgt].
      - unfold opening. by rewrite !decide_True by lia.
      - assert (d = p_from_date') as -> by lia.
        rewrite opening_first_day. unfold first_opening.
        rewrite Hrow by lia. by rewrite morning_stock_day_row. }
    apply Hrows; [done|lia].
  - reflexivity.
  - reflexivity.
  - rewrite Hrun2. exists s2. split; [|done].
    subst n. simpl. do 2 f_equal; lia.
Qed.

(** X4. A run over a valid range that finds no affected unit (no event in
    the range that matches the filters and carries a non-empty [imei])
    returns [(0, 0)] and executes no statement on [stock_entries]: the
    state, trace included, is the one it was called in. *)
Theorem no_affected_unit_nothing_done p_from_date p_to_date p_location_id
    p_phone_model_id p_imei s :
  p_from_date ≤ p_to_date →
  (∀ u, ¬ affected p_from_date p_to_date p_location_id p_phone_model_id
            p_imei (stock_events s) u) →
  cascade_recalc_stock entry_accepted p_from_date p_to_date p_location_id
    p_phone_model_id p_imei s = Ok (0, 0) s.
Proof.
  intros Hle Hnone. unfold cascade_recalc_stock. rewrite decide_False by lia.
  destruct (affected_units _ _ _ _ _ _) as [|u us] eqn:Hus; [done|].
  exfalso. apply (Hnone u), affected_units_spec. rewrite Hus. left.
Qed.

(** ** The order of the rows of [stock_events] *)










(** ** Events that are not counted *)

Lemma CASE_uncounted e :
  event_type e ∉ counted_kinds →
  CASE_incoming e = 0 ∧ CASE_sold e = 0 ∧ CASE_returns e = 0
  ∧ CASE_adjustment e = 0.
Proof.
  intros Hk. unfold counted_kinds in Hk.
  rewrite CASE_adjustment_split.
  unfold CASE_incoming, CASE_sold, CASE_returns.
  repeat (rewrite decide_False by set_solver). done.
Qed.

Lemma sum_day_events_filter (f : stock_event → Z) (P : stock_event → Prop)
    `{∀ e, Decision (P e)} u d evs :
  (∀ e, ¬ P e → f e = 0) →
  foldr Z.add 0 (f <$> day_events u d (filter P evs))
  = foldr Z.add 0 (f <$> day_events u d evs).
Proof.
  intros Hf. destruct u as [[l m] i]. unfold day_events.
  induction evs as [|e evs IH]; [done|].
  rewrite (filter_cons P). destruct (decide (P e)) as [HP|HP].
  - rewrite !filter_cons. case_decide; csimpl; by rewrite IH.
  - rewrite IH, filter_cons. case_decide; csimpl; [|done].
    rewrite (Hf e HP). lia.
Qed.

Lemma balance_row_counted m u d evs :
  balance_row m
    (day_events u d (filter (λ e, event_type e ∈ counted_kinds) evs))
  = balance_row m (day_events u d evs).
Proof.
  unfold balance_row. rewrite !COALESCE_SUM.
  rewrite !(sum_day_events_filter _ (λ e, event_type e ∈ counted_kinds));
    [done|intros e He; by destruct (CASE_uncounted e He) as (? & ? & ? & ?)..].
Qed.

Lemma day_flow_counted u d evs :
  day_flow u d (filter (λ e, event_type e ∈ counted_kinds) evs)
  = day_flow u d evs.
Proof.
  unfold day_flow. cbv zeta. rewrite !COALESCE_SUM.
  rewrite !(sum_day_events_filter _ (λ e, event_type e ∈ counted_kinds));
    [done|intros e He; by destruct (CASE_uncounted e He) as (? & ? & ? & ?)..].
Qed.

(** X6. Events of a kind that no [CASE] names, [koreksi_pagi] among them,
    enter no column of any row: each row a completed run leaves is the row
    of the closed form computed from the ledger without these events. They
    still count when the affected units are selected. *)
Theorem uncounted_events_enter_no_row p_from_date p_to_date p_location_id
    p_phone_model_id p_imei s c s' u d :
  cascade_recalc_stock entry_accepted p_from_date p_to_date p_location_id
    p_phone_model_id p_imei s = Ok c s' →
  u ∈ affected_units p_from_date p_to_date p_location_id p_phone_model_id
        p_imei (stock_events s) →
  p_from_date ≤ d ≤ p_to_date →
  stock_entries s' !! key_of d u
  = Some (closed_form_row p_from_date (stock_entries s)
            (filter (λ e, event_type e ∈ counted_kinds) (stock_events s))
            u d).
Proof.
  intros Hrun Hu Hd.
  rewrite (rows_closed_form _ _ _ _ _ _ _ _ _ Hrun Hu
             (Z.to_nat (d - p_from_date)) d) by lia.
  f_equal. unfold closed_form_row, opening_on, flows.
  rewrite balance_row_counted. do 3 f_equal.
  apply list_fmap_ext. intros _ j _. symmetry. apply day_flow_counted.
Qed.

(** ** One more event *)




(** ** Days without events, days outside the range *)

(** X15. A day of the range on which an affected unit has no event is
    carried forward: the run writes its row with all four aggregates 0 (the
    [SUM]s over no row are [NULL] and coalesce to 0) and with the closing
    equal to the opening. *)
Theorem eventless_day_carries_forward p_from_date p_to_date p_location_id
    p_phone_model_id p_imei s c s' u d :
  cascade_recalc_stock entry_accepted p_from_date p_to_date p_location_id
    p_phone_model_id p_imei s = Ok c s' →
  u ∈ affected_units p_from_date p_to_date p_location_id p_phone_model_id
        p_imei (stock_events s) →
  p_from_date ≤ d ≤ p_to_date →
  day_events u d (stock_events s) = [] →
  ∃ v_morning_stock,
    stock_entries s' !! key_of d u
    = Some {| morning_stock := Some v_morning_stock;
              incoming := Some 0; sold := Some 0; returns := Some 0;
              adjustment := Some 0;
              night_stock := Some v_morning_stock |}.
Proof.
  intros Hrun Hu Hd Hday.
  apply cascade_recalc_stock_ok in Hrun as (_ & _ & _ & _ & Hrows).
  destruct (Hrows u d Hu Hd) as [Hrow _]. cbv zeta in Hrow.
  rewrite Hrow. unfold day_row. rewrite Hday.
  exists (opening p_from_date (stock_entries s') u d).
  unfold balance_row. simpl. repeat f_equal. lia.
Qed.

(** X16. Whether it completes or raises, a run changes no row dated
    outside its range, whatever the unit. *)
Theorem rows_outside_range_untouched p_from_date p_to_date p_location_id
    p_phone_model_id p_imei s k :
  ¬ (p_from_date ≤ key_date k ≤ p_to_date) →
  let run := cascade_recalc_stock entry_accepted p_from_date p_to_date
               p_location_id p_phone_model_id p_imei in
  stock_entries (final_state (run s)) !! k = stock_entries s !! k
  ∧ stock_entries (statement run s).2 !! k = stock_entries s !! k.
Proof.
  intros Hk run.
  pose proof (cascade_recalc_stock_confined entry_accepted p_from_date
                p_to_date p_location_id p_phone_model_id p_imei s)
    as (_ & _ & Hfr).
  fold run in Hfr.
  assert (stock_entries (final_state (run s)) !! k = stock_entries s !! k)
    as Hsame by (apply Hfr; tauto).
  split; [done|]. unfold statement. by destruct (run s).
Qed.

End Closed_form.


(** * Beyond the procedure: what the trigger makes of a statement *)

Section Trigger.

Variable entry_accepted : entry_key → stock_entry → bool.

Lemma rollback_same_trace s evs :
  rollback s (with_stock_events evs s) = s.
Proof. by destruct s. Qed.

(** A statement on an event whose recalculation finds no affected unit
    changes [stock_events] and nothing else. *)
Lemma statement_without_affected_unit st CURRENT_DATE s e :
  changed_event st (stock_events s) = Some e →
  date e ≤ CURRENT_DATE →
  (∀ u, ¬ affected (date e) CURRENT_DATE (Some (location_id e))
            (Some (phone_model_id e)) (imei e)
            (changed_table st (stock_events s)) u) →
  statement (run_dml entry_accepted st CURRENT_DATE) s
  = (inr (), with_stock_events (changed_table st (stock_events s)) s).
Proof.
  intros He Hd Hnone.
  assert (cascade_recalc_stock entry_accepted (date e) CURRENT_DATE
            (Some (location_id e)) (Some (phone_model_id e)) (imei e)
            (with_stock_events (changed_table st (stock_events s)) s)
          = Ok (0, 0)
              (with_stock_events (changed_table st (stock_events s)) s))
    as Hrun.
  { unfold cascade_recalc_stock. rewrite decide_False by lia.
    destruct (affected_units _ _ _ _ _ _) as [|u us] eqn:Hus; [done|].
    exfalso. apply (Hnone u), affected_units_spec.
    simpl in Hus. rewrite Hus. left. }
  unfold statement, run_dml, trigger_cascade_recalc.
  unfold mbind, M_bind, mret, M_ret, set_stock_events.
  destruct st as [NEW|i NEW|i]; simpl in *.
  - injection He as <-. by rewrite Hrun.
  - destruct (stock_events s !! i) as [OLD|]; [|done].
    injection He as <-. by rewrite Hrun.
  - destruct (stock_events s !! i) as [OLD|]; [|done].
    injection He as <-. by rewrite Hrun.
Qed.

(** X8. An event dated after [CURRENT_DATE] cannot be created, updated to,
    or deleted: the trigger calls the procedure with a range that starts
    after its end, the procedure raises, and the statement fails leaving
    [stock_events] and [stock_entries] as they were. *)
Theorem future_dated_event_rejected st CURRENT_DATE s e :
  changed_event st (stock_events s) = Some e →
  date e > CURRENT_DATE →
  statement (run_dml entry_accepted st CURRENT_DATE) s
  = (inl "from_date cannot be greater than to_date", s).
Proof.
  intros He Hd.
  unfold statement, run_dml, trigger_cascade_recalc, cascade_recalc_stock.
  unfold mbind, M_bind, mret, M_ret, set_stock_events, RAISE_EXCEPTION.
  destruct st as [NEW|i NEW|i]; simpl in *.
  - injection He as <-. rewrite decide_True by done.
    by rewrite rollback_same_trace.
  - destruct (stock_events s !! i) as [OLD|]; [|done].
    injection He as <-. rewrite decide_True by done.
    by rewrite rollback_same_trace.
  - destruct (stock_events s !! i) as [OLD|]; [|done].
    injection He as <-. rewrite decide_True by done.
    by rewrite rollback_same_trace.
Qed.

(** X9. Deleting an event that carries an imei, when no other event of the
    same location, model and imei is dated from its date to
    [CURRENT_DATE], removes the event and leaves [stock_entries]
    untouched: the unit is no longer selected, so the rows that counted
    the deleted event are not recomputed. *)
Theorem delete_last_event_leaves_rows i CURRENT_DATE s OLD v_imei :
  stock_events s !! i = Some OLD →
  imei OLD = Some v_imei →
  date OLD ≤ CURRENT_DATE →
  Forall (λ e, ¬ (date OLD ≤ date e ≤ CURRENT_DATE
                  ∧ location_id e = location_id OLD
                  ∧ phone_model_id e = phone_model_id OLD
                  ∧ imei e = Some v_imei))
    (delete i (stock_events s)) →
  statement (run_dml entry_accepted (DELETE_FROM_stock_events i) CURRENT_DATE)
    s
  = (inr (), with_stock_events (delete i (stock_events s)) s).
Proof.
  intros Hi Himei Hd Hnone.
  apply (statement_without_affected_unit (DELETE_FROM_stock_events i)
           CURRENT_DATE s OLD); [done|done|].
  intros u (e & He & Hde & Hl & Hm & Him & _).
  rewrite Forall_forall in Hnone. apply (Hnone e He).
  split; [done|]. split; [by apply Hl|]. split; [by apply Hm|].
  by apply Him.
Qed.

(** X10. A statement on an event whose imei is the empty string (and whose
    date is not after [CURRENT_DATE]) changes [stock_events] and nothing
    else: the filter [e.imei = ''] and the test [e.imei != ''] select no
    unit, so no row is read or written. *)
Theorem empty_imei_event_recalculates_nothing st CURRENT_DATE s e :
  changed_event st (stock_events s) = Some e →
  imei e = Some "" →
  date e ≤ CURRENT_DATE →
  statement (run_dml entry_accepted st CURRENT_DATE) s
  = (inr (), with_stock_events (changed_table st (stock_events s)) s).
Proof.
  intros He Himei Hd.
  apply (statement_without_affected_unit st CURRENT_DATE s e); [done..|].
  intros u (e' & _ & _ & _ & _ & Him & Hu & Hne & _).
  pose proof (Him "" Himei) as Hempty. rewrite Hempty in Hu.
  injection Hu as Hu. by rewrite <- Hu in Hne.
Qed.

(** X17. A statement on an event rewrites only rows of that event's
    location and model (and of its imei, when it carries one) dated from
    the event's date to [CURRENT_DATE]; every other row is as it was. For
    an update this is the scope of the new row: when the update moves the
    event to another unit or to a later date, the rows that counted it
    under the old unit, or on the earlier days, are not recomputed. *)
Theorem event_statement_frame st CURRENT_DATE s e k :
  changed_event st (stock_events s) = Some e →
  ¬ ((key_unit k).1 = (location_id e, phone_model_id e)
     ∧ (∀ i, imei e = Some i → (key_unit k).2 = i)
     ∧ date e ≤ key_date k ≤ CURRENT_DATE) →
  stock_entries (statement (run_dml entry_accepted st CURRENT_DATE) s).2 !! k
  = stock_entries s !! k.
Proof.
  intros He Hk.
  pose proof (cascade_recalc_stock_confined entry_accepted (date e)
                CURRENT_DATE (Some (location_id e)) (Some (phone_model_id e))
                (imei e)
                (with_stock_events (changed_table st (stock_events s)) s))
    as (_ & _ & Hfr).
  specialize (Hfr k).
  assert (stock_entries
            (final_state
               (cascade_recalc_stock entry_accepted (date e) CURRENT_DATE
                  (Some (location_id e)) (Some (phone_model_id e)) (imei e)
                  (with_stock_events (changed_table st (stock_events s)) s)))
            !! k = stock_entries s !! k) as Hsame.
  { apply Hfr. intros [Hu Hd]. apply Hk.
    apply affected_units_spec in Hu
      as (e' & _ & _ & Hl & Hm & Hi & Hu & _ & Heq).
    split; [|split; [|done]].
    - rewrite <- Heq. f_equal; [by apply Hl|by apply Hm].
    - intros i Hie. specialize (Hi i Hie). rewrite Hi in Hu.
      by injection Hu. }
  revert Hsame.
  unfold statement, run_dml, trigger_cascade_recalc.
  unfold mbind, M_bind, mret, M_ret, set_stock_events.
  destruct st as [NEW|i NEW|i]; simpl in *.
  - injection He as <-.
    by destruct (cascade_recalc_stock _ _ _ _ _ _ _).
  - destruct (stock_events s !! i) as [OLD|]; [|done].
    injection He as <-.
    by destruct (cascade_recalc_stock _ _ _ _ _ _ _).
  - destruct (stock_events s !! i) as [OLD|]; [|done].
    injection He as <-.
    by destruct (cascade_recalc_stock _ _ _ _ _ _ _).
Qed.

End Trigger.


(** * Beyond the database: the forms *)

Section Forms.

Lemma digit_not_white_space c : is_digit c → ¬ is_white_space c.
Proof.
  unfold is_digit, is_white_space. intros Hd [Hin|Hr]; [|lia].
  repeat (apply elem_of_cons in Hin as [->|Hin]; [lia|]).
  by apply elem_of_nil in Hin.
Qed.

Lemma filter_digit_trimStart s :
  filter is_digit (trimStart s) = filter is_digit s.
Proof.
  induction s as [|c s IH]; [done|]. simpl.
  destruct (decide (is_white_space c)) as [Hw|Hw]; [|done].
  rewrite IH, filter_cons, decide_False; [done|].
  intros Hd. by apply (digit_not_white_space c).
Qed.

(** Trimming before the digits are extracted changes nothing. *)
Lemma replace_non_digits_trim s :
  replace_non_digits (trim s) = filter is_digit s.
Proof.
  unfold replace_non_digits, trim.
  rewrite filter_reverse, filter_digit_trimStart, filter_reverse,
    filter_digit_trimStart.
  apply reverse_involutive.
Qed.

(** X11. The scan callback accepts a decoded text exactly when it holds 15
    decimal digits, whatever else it holds and wherever: it then hands
    these digits, in their order, to [onScanSuccess] and closes the
    scanner; otherwise it hands nothing over and leaves the scanner open.
    What is handed over is therefore always 15 digits. *)
Theorem scan_accepts_exactly_fifteen_digits decodedText :
  let digits := filter is_digit decodedText in
  (∀ text, onScanSuccess text ∈ scan_callback decodedText
           ↔ text = digits ∧ length digits = 15%nat)
  ∧ (∀ open, onOpenChange open ∈ scan_callback decodedText
             ↔ open = false ∧ length digits = 15%nat)
  ∧ (∀ text, onScanSuccess text ∈ scan_callback decodedText →
       Forall is_digit text ∧ length text = 15%nat).
Proof.
  intros digits. unfold scan_callback. cbv zeta.
  rewrite replace_non_digits_trim. fold digits.
  assert (Forall is_digit digits) as Hdig.
  { apply Forall_forall. intros c Hc.
    by apply list_elem_of_filter in Hc as [? _]. }
  destruct (decide (length digits = 15%nat)) as [Hlen|Hlen].
  - split; [|split].
    + intros text. rewrite !elem_of_cons, elem_of_nil. split.
      * by intros [[=]|[[= ->]|[[=]|[]]]].
      * intros [-> _]. right. by left.
    + intros open. rewrite !elem_of_cons, elem_of_nil. split.
      * by intros [[=]|[[=]|[[= ->]|[]]]].
      * intros [-> _]. right. right. by left.
    + intros text. rewrite !elem_of_cons, elem_of_nil.
      by intros [[=]|[[= ->]|[[=]|[]]]].
  - split; [|split].
    + intros text. rewrite !elem_of_cons, elem_of_nil. split.
      * by intros [[=]|[]].
      * by intros [_ ?].
    + intros open. rewrite !elem_of_cons, elem_of_nil. split.
      * by intros [[=]|[]].
      * by intros [_ ?].
    + intros text. rewrite !elem_of_cons, elem_of_nil.
      by intros [[=]|[]].
Qed.

(** ** The duplicate check *)

Lemma indexOf_lookup (l : list (list N)) i x :
  l !! i = Some x →
  ∃ j, indexOf l x = Z.of_nat j ∧ (j ≤ i)%nat ∧ l !! j = Some x.
Proof.
  intros Hi. unfold indexOf.
  destruct (list_find (λ y, y = x) l) as [[j y]|] eqn:Hfind.
  - apply list_find_Some in Hfind as (Hj & -> & Hfirst).
    exists j. split; [done|]. split; [|done].
    destruct (decide (j ≤ i)%nat) as [|Hgt]; [done|].
    exfalso. apply (Hfirst i x Hi); [lia|done].
  - apply list_find_None in Hfind. rewrite Forall_forall in Hfind.
    exfalso. apply (Hfind x); [|done]. by eapply list_elem_of_lookup_2.
Qed.

Lemma elem_of_duplicates (l : list (list N)) x :
  x ∈ duplicates l
  ↔ ∃ i, l !! i = Some x ∧ indexOf l x ≠ Z.of_nat i.
Proof.
  unfold duplicates. rewrite list_elem_of_fmap. split.
  - intros ([i y] & -> & Hp). apply list_elem_of_filter in Hp as [Hne Hp].
    apply list_elem_of_lookup in Hp as [k Hk].
    rewrite list_lookup_imap in Hk.
    destruct (l !! k) as [z|] eqn:Hlk; [|done].
    injection Hk as <- <-. by exists k.
  - intros (i & Hi & Hne). exists (i, x). split; [done|].
    apply list_elem_of_filter. split; [done|].
    apply list_elem_of_lookup. exists i.
    by rewrite list_lookup_imap, Hi.
Qed.

(** The [indexOf] filter finds nothing exactly on a list without repeated
    entries. *)
Lemma duplicates_nil_NoDup (l : list (list N)) : duplicates l = [] ↔ NoDup l.
Proof.
  rewrite NoDup_alt. split.
  - intros Hnil i j x Hi Hj.
    destruct (indexOf_lookup l i x Hi) as (i0 & Hi0 & _ & _).
    destruct (decide (indexOf l x = Z.of_nat i)) as [Hei|Hei]; last first.
    { assert (x ∈ duplicates l) as Hin by (apply elem_of_duplicates; eauto).
      rewrite Hnil in Hin. by apply elem_of_nil in Hin. }
    destruct (decide (indexOf l x = Z.of_nat j)) as [Hej|Hej]; last first.
    { assert (x ∈ duplicates l) as Hin by (apply elem_of_duplicates; eauto).
      rewrite Hnil in Hin. by apply elem_of_nil in Hin. }
    lia.
  - intros Hnd. destruct (duplicates l) as [|x d] eqn:Hdup; [done|].
    assert (x ∈ duplicates l) as Hin by (rewrite Hdup; left).
    apply elem_of_duplicates in Hin as (i & Hi & Hne).
    destruct (indexOf_lookup l i x Hi) as (j & Hj & _ & Hlj).
    exfalso. apply Hne. rewrite Hj. f_equal. by eapply Hnd.
Qed.

(** ** Trimmed strings *)

Lemma head_trimStart s c : head (trimStart s) = Some c → ¬ is_white_space c.
Proof.
  induction s as [|c' s IH]; [done|]. simpl.
  destruct (decide (is_white_space c')); [done|]. by intros [= <-].
Qed.

Lemma length_trimStart s : (length (trimStart s) ≤ length s)%nat.
Proof.
  induction s as [|c s IH]; [done|]. simpl.
  destruct (decide (is_white_space c)); simpl; lia.
Qed.

Lemma last_trimStart s c : last (trimStart s) = Some c → last s = Some c.
Proof.
  induction s as [|c' s IH]; [done|]. simpl.
  destruct (decide (is_white_space c')); [|done].
  intros Hl. specialize (IH Hl). rewrite last_cons, IH. done.
Qed.

Lemma trimStart_id s :
  (∀ c, head s = Some c → ¬ is_white_space c) → trimStart s = s.
Proof.
  destruct s as [|c s]; [done|]. simpl. intros Hh.
  by rewrite decide_False by (by apply Hh).
Qed.

Lemma trim_ends s :
  (∀ c, head (trim s) = Some c → ¬ is_white_space c)
  ∧ (∀ c, last (trim s) = Some c → ¬ is_white_space c)
  ∧ (length (trim s) ≤ length s)%nat.
Proof.
  unfold trim. split; [|split].
  - intros c. rewrite head_reverse. intros Hl%last_trimStart.
    rewrite last_reverse in Hl. by apply head_trimStart in Hl.
  - intros c. rewrite last_reverse. apply head_trimStart.
  - rewrite length_reverse.
    etrans; [apply length_trimStart|]. rewrite length_reverse.
    apply length_trimStart.
Qed.

Lemma trim_digits s : Forall is_digit s → trim s = s.
Proof.
  intros Hs. unfold trim.
  rewrite (trimStart_id s).
  - rewrite trimStart_id; [apply reverse_involutive|].
    intros c Hc. rewrite head_reverse in Hc.
    apply digit_not_white_space. rewrite Forall_forall in Hs.
    by apply Hs, last_Some_elem_of.
  - intros c Hc. apply digit_not_white_space. rewrite Forall_forall in Hs.
    by apply Hs, head_Some_elem_of.
Qed.

(** What the validation accepts. *)
Lemma validate_inr_iff selectedLocation selectedBrand selectedModel
    imeiList accepted :
  validate selectedLocation selectedBrand selectedModel imeiList
  = inr accepted
  ↔ selectedLocation ≠ [] ∧ selectedBrand ≠ [] ∧ selectedModel ≠ []
    ∧ accepted = filter (λ imei, trim imei ≠ []) imeiList
    ∧ accepted ≠ []
    ∧ Forall (λ imei, length imei = 15%nat) accepted
    ∧ NoDup accepted.
Proof.
  unfold validate. cbv zeta. fold (validImeis imeiList).
  change (filter (λ imei, trim imei ≠ []) imeiList) with (validImeis imeiList).
  generalize (validImeis imeiList). intros v.
  destruct (decide (selectedLocation = [])); [by split; [|intros (? & _)]|].
  destruct (decide (selectedBrand = [])); [by split; [|intros (_ & ? & _)]|].
  destruct (decide (selectedModel = []));
    [by split; [|intros (_ & _ & ? & _)]|].
  destruct (decide (length v = 0%nat)) as [Hlen|Hlen].
  { split; [done|]. intros (_ & _ & _ & -> & Hne & _).
    by destruct v. }
  destruct (list_find (λ imei, length imei ≠ 15%nat) v) as [[i x]|] eqn:Hfind.
  { split; [done|]. intros (_ & _ & _ & -> & _ & Hall & _).
    apply list_find_Some in Hfind as (Hi & Hx & _).
    rewrite Forall_forall in Hall. exfalso. apply Hx, Hall.
    by eapply list_elem_of_lookup_2. }
  apply list_find_None in Hfind.
  assert (Forall (λ imei, length imei = 15%nat) v) as Hall.
  { eapply Forall_impl; [exact Hfind|]. simpl. intros x Hx.
    by destruct (decide (length x = 15%nat)). }
  destruct (decide (0 < length (duplicates v))%nat) as [Hdup|Hdup].
  - split; [done|]. intros (_ & _ & _ & -> & _ & _ & Hnd).
    apply duplicates_nil_NoDup in Hnd. rewrite Hnd in Hdup. simpl in Hdup. lia.
  - split.
    + intros [= <-]. repeat split; try done.
      * by destruct v.
      * apply duplicates_nil_NoDup. destruct (duplicates v); [done|].
        simpl in Hdup. lia.
    + by intros (_ & _ & _ & -> & _).
Qed.

(** X12. The validation lets a form through exactly when location, brand
    and model are chosen, at least one IMEI field is not blank, every
    field that is not blank is 15 code units long as typed (before
    trimming), and no two of these fields are equal; what it returns is
    the list of the fields that are not blank, in their order. *)
Theorem validation_accepts_iff selectedLocation selectedBrand selectedModel
    imeiList accepted :
  validate selectedLocation selectedBrand selectedModel imeiList
  = inr accepted
  ↔ selectedLocation ≠ [] ∧ selectedBrand ≠ [] ∧ selectedModel ≠ []
    ∧ accepted = filter (λ imei, trim imei ≠ []) imeiList
    ∧ accepted ≠ []
    ∧ Forall (λ imei, length imei = 15%nat) accepted
    ∧ NoDup accepted.
Proof.
  split.
  - intros Hv. by apply validate_inr_iff in Hv.
  - intros Hv. by apply validate_inr_iff.
Qed.

(** X13. When the validation lets a form through, one event is built per
    field that is not blank, and the imei of each event is not empty, has
    at most 15 code units, and neither starts nor ends with white space. *)
Theorem inserted_imeis_are_trimmed selectedLocation selectedBrand
    selectedModel imeiList accepted :
  validate selectedLocation selectedBrand selectedModel imeiList
  = inr accepted →
  length (inserted_imeis accepted) = length accepted
  ∧ (0 < length accepted)%nat
  ∧ Forall (λ imei, imei ≠ []
                    ∧ (length imei ≤ 15)%nat
                    ∧ (∀ c, head imei = Some c → ¬ is_white_space c)
                    ∧ (∀ c, last imei = Some c → ¬ is_white_space c))
      (inserted_imeis accepted).
Proof.
  intros (_ & _ & _ & Hacc & Hne & Hall & _)%validate_inr_iff.
  unfold inserted_imeis. split; [apply length_fmap|].
  split; [destruct accepted; [done|simpl; lia]|].
  apply Forall_fmap, Forall_forall. intros imei Hin. simpl.
  rewrite Forall_forall in Hall. specialize (Hall imei Hin).
  rewrite Hacc in Hin. apply list_elem_of_filter in Hin as [Hblank _].
  destruct (trim_ends imei) as (Hh & Hl & Hlen).
  split; [done|]. split; [lia|]. done.
Qed.

(** X14. Fields filled by the scanner go through unchanged: when location,
    brand and model are chosen and the IMEI fields are pairwise distinct
    texts of 15 digits, as the scan callback delivers them, the validation
    accepts and the events carry exactly these texts. *)
Theorem scanned_imeis_pass_validation selectedLocation selectedBrand
    selectedModel imeiList :
  selectedLocation ≠ [] → selectedBrand ≠ [] → selectedModel ≠ [] →
  imeiList ≠ [] →
  Forall (λ imei, Forall is_digit imei ∧ length imei = 15%nat) imeiList →
  NoDup imeiList →
  validate selectedLocation selectedBrand selectedModel imeiList
  = inr imeiList
  ∧ inserted_imeis imeiList = imeiList.
Proof.
  intros Hl Hb Hm Hne Hall Hnd.
  assert (∀ imei, imei ∈ imeiList → trim imei = imei ∧ imei ≠ []) as Htrim.
  { intros imei Hin. rewrite Forall_forall in Hall.
    destruct (Hall imei Hin) as [Hdig Hlen].
    split; [by apply trim_digits|]. by destruct imei. }
  assert (filter (λ imei, trim imei ≠ []) imeiList = imeiList) as Hvalid.
  { clear -Htrim. induction imeiList as [|x l IH]; [done|].
    rewrite filter_cons. destruct (Htrim x) as [-> Hx]; [left|].
    rewrite decide_True by done. f_equal. apply IH.
    intros imei Hin. apply Htrim. by right. }
  split.
  - apply validate_inr_iff. repeat split; try done.
    eapply Forall_impl; [exact Hall|]. by intros x [_ ?].
  - unfold inserted_imeis. clear -Htrim.
    induction imeiList as [|x l IH]; [done|]. csimpl.
    destruct (Htrim x) as [-> _]; [left|]. f_equal. apply IH.
    intros imei Hin. apply Htrim. by right.
Qed.

End Forms.


(** * The scenarios *)

(** Scenario A of the specification: one intake on day 1 and no prior row
    give opening 0, incoming 1 and closing 1. *)
Example scenario_A_row :
  stock_entries
    (final_state (cascade_recalc_stock accept_all 1 1 None None None
                    scenario_A)) !! key_of 1 unit_U
  = Some {| morning_stock := Some 0; incoming := Some 1; sold := Some 0;
            returns := Some 0; adjustment := Some 0; night_stock := Some 1 |}.
Proof. vm_compute. reflexivity. Qed.

(** Scenario C: recording the sale of day 2 through the trigger, with
    [CURRENT_DATE] on day 3 and the row of day 2 already opened with 1. *)
Example scenario_C_sale :
  let before :=
    tables [event_for unit_U 1 "masuk" 1]
      [(key_of 1 unit_U,
        {| morning_stock := Some 0; incoming := Some 1; sold := Some 0;
           returns := Some 0; adjustment := Some 0; night_stock := Some 1 |});
       (key_of 2 unit_U,
        {| morning_stock := Some 1; incoming := Some 0; sold := Some 0;
           returns := Some 0; adjustment := Some 0; night_stock := Some 1 |})] in
  let after :=
    (statement
       (run_dml accept_all
          (INSERT_INTO_stock_events (event_for unit_U 2 "laku" 1)) 3)
       before).2 in
  stock_entries after !! key_of 2 unit_U
  = Some {| morning_stock := Some 1; incoming := Some 0; sold := Some 1;
            returns := Some 0; adjustment := Some 0; night_stock := Some 0 |}
  ∧ stock_entries after !! key_of 3 unit_U
    = Some {| morning_stock := Some 0; incoming := Some 0; sold := Some 0;
              returns := Some 0; adjustment := Some 0; night_stock := Some 0 |}.
Proof. split; vm_compute; reflexivity. Qed.

Lemma C1_witness :
  let s' := final_state (cascade_recalc_stock accept_all 1 3 None None None
                           scenario_C) in
  key_of 2 unit_U ∈ upsert_keys (new_trace scenario_C s')
  ∧ ∃ v_morning_stock,
      stock_entries s' !! key_of 2 unit_U
      = Some (spec_balance v_morning_stock unit_U 2 (stock_events scenario_C)).
Proof.
  apply (C1_day_aggregates_and_closing accept_all 1 3 None None None
           scenario_C (3, 3)).
  - vm_compute. reflexivity.
  - exists (event_for unit_U 1 "masuk" 1).
    split; [left|]. vm_compute. repeat split; congruence.
  - lia.
Defined.

Lemma C4_witness :
  let s' := final_state (cascade_recalc_stock accept_all 1 3 None None None
                           scenario_C) in
  ∃ r r' closing,
    stock_entries s' !! key_of 1 unit_U = Some r
    ∧ stock_entries s' !! key_of (1 + 1) unit_U = Some r'
    ∧ night_stock r = Some closing
    ∧ morning_stock r' = Some closing.
Proof.
  apply (C4_closing_is_next_opening accept_all 1 3 None None None
           scenario_C (3, 3)).
  - vm_compute. reflexivity.
  - exists (event_for unit_U 1 "masuk" 1).
    split; [left|]. vm_compute. repeat split; congruence.
  - lia.
  - lia.
  - vm_compute. repeat constructor. discriminate.
Defined.

Lemma C6_witness :
  let e := event_for unit_U 2 "laku" 1 in
  match Recalculate_for accept_all e 3
          (with_stock_events
             (changed_table (INSERT_INTO_stock_events e)
                (stock_events scenario_A)) scenario_A) with
  | Ok _ s' =>
      statement (run_dml accept_all (INSERT_INTO_stock_events e) 3) scenario_A
      = (inr (), s')
  | Raise x s' =>
      statement (run_dml accept_all (INSERT_INTO_stock_events e) 3) scenario_A
      = (inl x, rollback scenario_A s')
  end.
Proof.
  apply (C6_trigger_recalculates_from_event accept_all
           (INSERT_INTO_stock_events (event_for unit_U 2 "laku" 1)) 3
           scenario_A).
  reflexivity.
Defined.

Lemma C7_witness :
  cascade_recalc_stock accept_all 3 1 None None None scenario_C
  = Raise "from_date cannot be greater than to_date" scenario_C.
Proof.
  apply (C7_invalid_range_rejected accept_all 3 1 None None None scenario_C).
  lia.
Defined.

Lemma C8_witness :
  let run := cascade_recalc_stock nonnegative_stock 1 1 None None None in
  let unconstrained :=
    final_state (cascade_recalc_stock accept_all 1 1 None None None
                   scenario_two_units) in
  ∃ e sf t k0 r0 t',
    run scenario_two_units = Raise e sf
    ∧ new_trace scenario_two_units unconstrained = t ++ UPSERT_entry k0 r0 :: t'
    ∧ Forall (accepted_access nonnegative_stock) t
    ∧ nonnegative_stock k0 r0 = false
    ∧ new_trace scenario_two_units sf = t
    ∧ statement run scenario_two_units = (inl e, rollback scenario_two_units sf)
    ∧ stock_entries (statement run scenario_two_units).2
      = stock_entries scenario_two_units.
Proof.
  apply (C8_failed_upsert_aborts_whole_run nonnegative_stock 1 1 None None None
           scenario_two_units (key_of 1 unit_V)
           {| morning_stock := Some 0; incoming := Some 0; sold := Some 1;
              returns := Some 0; adjustment := Some 0;
              night_stock := Some (-1) |}).
  - apply list_elem_of_lookup. exists 3%nat. vm_compute. reflexivity.
  - vm_compute. reflexivity.
Defined.

Lemma C10_witness :
  let s' := final_state (cascade_recalc_stock accept_all 1 3 None None None
                           scenario_C) in
  let us := affected_units 1 3 None None None (stock_events scenario_C) in
  let written := upsert_keys (new_trace scenario_C s') in
  (NoDup us
   ∧ ∀ u, u ∈ us ↔ affected 1 3 None None None (stock_events scenario_C) u)
  ∧ NoDup written
  ∧ (∀ u d, key_of d u ∈ written ↔ u ∈ us ∧ 1 ≤ d ≤ 3)
  ∧ (∀ u d, u ∈ us → 1 ≤ d ≤ 3 → is_Some (stock_entries s' !! key_of d u))
  ∧ (3, 3).1 = (3, 3).2
  ∧ (3, 3).2 = Z.of_nat (length written)
  ∧ (3, 3).1 = Z.of_nat (length us) * (3 + 1 - 1).
Proof.
  apply (C10_one_upsert_per_unit_and_day accept_all 1 3 None None None
           scenario_C (3, 3)).
  vm_compute. reflexivity.
Defined.

(** C8, as the specification words it, fails on [scenario_two_units] with a
    table that refuses a negative closing stock: the row of [unit_U] is
    accepted, the row of [unit_V] is not, and after the call [unit_U] has
    no row. *)
Lemma C8_counterexample :
  ¬ failure_isolated_per_unit nonnegative_stock 1 1 None None None
      scenario_two_units.
Proof.
  intros H. specialize (H unit_U 1).
  assert (stock_entries
            (statement (cascade_recalc_stock nonnegative_stock 1 1 None None
                          None) scenario_two_units).2 !! key_of 1 unit_U
          = stock_entries
              (final_state (cascade_recalc_stock accept_all 1 1 None None None
                              scenario_two_units)) !! key_of 1 unit_U) as Heq.
  { apply H.
    - vm_compute. left.
    - intros d r Hd. assert (d = 1) as -> by lia.
      vm_compute. by intros [= <-].
    - lia. }
  vm_compute in Heq. discriminate.
Qed.

(** C2 on the code. In [scenario_D] day 3 inherits an opening of 1 from the
    closing of day 2 and carries a [koreksi_pagi] of -1; the run writes day
    3 with [morning_stock] 1 and [night_stock] 1: the correction reaches
    neither the opening nor the adjustment. *)
Theorem C2_morning_correction_not_applied :
  spec_morning_correction unit_U 3 (stock_events scenario_D) = -1
  ∧ ∃ s',
      cascade_recalc_stock accept_all 2 3 None None None scenario_D
      = Ok (2, 2) s'
      ∧ night_stock <$> stock_entries s' !! key_of 2 unit_U = Some (Some 1)
      ∧ stock_entries s' !! key_of 3 unit_U
        = Some {| morning_stock := Some 1; incoming := Some 0;
                  sold := Some 0; returns := Some 0; adjustment := Some 0;
                  night_stock := Some 1 |}.
Proof.
  split; [reflexivity|].
  eexists. split; [vm_compute; reflexivity|].
  split; vm_compute; reflexivity.
Qed.

(** C3 on the code. In [scenario_no_row_today] the unit closed day 4 with
    1 and has no row for day 5; recalculating day 5 alone opens it with 0,
    not with the closing of day 4, and closes it at -1. *)
Theorem C3_first_day_ignores_prior_closing :
  stock_entries scenario_no_row_today !! key_of 5 unit_U = None
  ∧ night_stock <$> stock_entries scenario_no_row_today !! key_of 4 unit_U
    = Some (Some 1)
  ∧ ∃ s',
      cascade_recalc_stock accept_all 5 5 None None None scenario_no_row_today
      = Ok (1, 1) s'
      ∧ stock_entries s' !! key_of 5 unit_U
        = Some {| morning_stock := Some 0; incoming := Some 0;
                  sold := Some 1; returns := Some 0; adjustment := Some 0;
                  night_stock := Some (-1) |}.
Proof.
  split; [vm_compute; reflexivity|]. split; [vm_compute; reflexivity|].
  eexists. split; vm_compute; reflexivity.
Qed.

(** ** The further properties on the scenarios *)

Lemma closing_is_running_total_witness :
  night_stock
    <$> stock_entries
          (final_state (cascade_recalc_stock accept_all 1 3 None None None
                          scenario_C)) !! key_of 2 unit_U
  = Some (Some (first_opening 1 (stock_entries scenario_C) unit_U
                + flows unit_U (stock_events scenario_C) 1 (2 - 1 + 1))).
Proof.
  apply (closing_is_running_total accept_all 1 3 None None None scenario_C
           (3, 3)).
  - vm_compute. reflexivity.
  - vm_compute. left.
  - lia.
Defined.


Lemma subrange_rerun_changes_nothing_witness :
  let s1 := final_state (cascade_recalc_stock accept_all 1 3 None None None
                           scenario_C) in
  let n := Z.of_nat (length (affected_units 2 3 None None None
                               (stock_events s1))) * (3 + 1 - 2) in
  ∃ s2,
    cascade_recalc_stock accept_all 2 3 None None None s1 = Ok (n, n) s2
    ∧ stock_entries s2 = stock_entries s1
    ∧ stock_events s2 = stock_events s1.
Proof.
  apply (subrange_rerun_changes_nothing accept_all 1 3 None None None
           scenario_C (3, 3)).
  - vm_compute. reflexivity.
  - lia.
  - lia.
  - lia.
Defined.

Lemma no_affected_unit_nothing_done_witness :
  cascade_recalc_stock accept_all 5 6 None None None scenario_C
  = Ok (0, 0) scenario_C.
Proof.
  apply (no_affected_unit_nothing_done accept_all 5 6 None None None
           scenario_C).
  - lia.
  - intros u (e & He & Hd & _).
    apply elem_of_cons in He as [->|He]; [simpl in Hd; lia|].
    apply elem_of_cons in He as [->|He]; [simpl in Hd; lia|].
    by apply elem_of_nil in He.
Defined.


Lemma uncounted_events_enter_no_row_witness :
  stock_entries
    (final_state (cascade_recalc_stock accept_all 2 3 None None None
                    scenario_D)) !! key_of 3 unit_U
  = Some (closed_form_row 2 (stock_entries scenario_D)
            (filter (λ e, event_type e ∈ counted_kinds)
               (stock_events scenario_D)) unit_U 3).
Proof.
  apply (uncounted_events_enter_no_row accept_all 2 3 None None None
           scenario_D (2, 2)).
  - vm_compute. reflexivity.
  - vm_compute. left.
  - lia.
Defined.


Lemma future_dated_event_rejected_witness :
  statement
    (run_dml accept_all
       (INSERT_INTO_stock_events (event_for unit_U 5 "masuk" 1)) 3)
    scenario_A
  = (inl "from_date cannot be greater than to_date", scenario_A).
Proof.
  apply (future_dated_event_rejected accept_all
           (INSERT_INTO_stock_events (event_for unit_U 5 "masuk" 1)) 3
           scenario_A (event_for unit_U 5 "masuk" 1)).
  - reflexivity.
  - simpl. lia.
Defined.

Lemma delete_last_event_leaves_rows_witness :
  let s := final_state (cascade_recalc_stock accept_all 1 3 None None None
                          scenario_A) in
  statement (run_dml accept_all (DELETE_FROM_stock_events 0) 3) s
  = (inr (), with_stock_events (delete 0%nat (stock_events s)) s).
Proof.
  apply (delete_last_event_leaves_rows accept_all 0 3
           (final_state (cascade_recalc_stock accept_all 1 3 None None None
                           scenario_A))
           (event_for unit_U 1 "masuk" 1) "356938035643809").
  - vm_compute. reflexivity.
  - reflexivity.
  - simpl. lia.
  - vm_compute. constructor.
Defined.

Lemma empty_imei_event_recalculates_nothing_witness :
  let e := {| date := 1; location_id := 1%N; phone_model_id := 1%N;
              imei := Some ""; event_type := "masuk"; qty := 1 |} in
  statement (run_dml accept_all (INSERT_INTO_stock_events e) 3) scenario_A
  = (inr (),
     with_stock_events
       (changed_table (INSERT_INTO_stock_events e) (stock_events scenario_A))
       scenario_A).
Proof.
  apply (empty_imei_event_recalculates_nothing accept_all
           (INSERT_INTO_stock_events
              {| date := 1; location_id := 1%N; phone_model_id := 1%N;
                 imei := Some ""; event_type := "masuk"; qty := 1 |}) 3
           scenario_A
           {| date := 1; location_id := 1%N; phone_model_id := 1%N;
              imei := Some ""; event_type := "masuk"; qty := 1 |}).
  - reflexivity.
  - reflexivity.
  - simpl. lia.
Defined.

Lemma inserted_imeis_are_trimmed_witness :
  let accepted := [js "356938035643809"; js " 49015420323751"] in
  length (inserted_imeis accepted) = length accepted
  ∧ (0 < length accepted)%nat
  ∧ Forall (λ imei, imei ≠ []
                    ∧ (length imei ≤ 15)%nat
                    ∧ (∀ c, head imei = Some c → ¬ is_white_space c)
                    ∧ (∀ c, last imei = Some c → ¬ is_white_space c))
      (inserted_imeis accepted).
Proof.
  apply (inserted_imeis_are_trimmed (js "SOKO") (js "Samsung") (js "A15")
           [js "356938035643809"; js ""; js " 49015420323751"]).
  vm_compute. reflexivity.
Defined.

Lemma scanned_imeis_pass_validation_witness :
  let imeiList := [js "356938035643809"; js "490154203237518"] in
  validate (js "SOKO") (js "Samsung") (js "A15") imeiList = inr imeiList
  ∧ inserted_imeis imeiList = imeiList.
Proof.
  apply (scanned_imeis_pass_validation (js "SOKO") (js "Samsung") (js "A15")
           [js "356938035643809"; js "490154203237518"]).
  - done.
  - done.
  - done.
  - done.
  - repeat constructor; vm_compute; congruence.
  - apply NoDup_cons. split; [|apply NoDup_singleton].
    rewrite list_elem_of_singleton. vm_compute. congruence.
Defined.

Lemma eventless_day_carries_forward_witness :
  ∃ v_morning_stock,
    stock_entries
      (final_state (cascade_recalc_stock accept_all 1 3 None None None
                      scenario_C)) !! key_of 3 unit_U
    = Some {| morning_stock := Some v_morning_stock;
              incoming := Some 0; sold := Some 0; returns := Some 0;
              adjustment := Some 0;
              night_stock := Some v_morning_stock |}.
Proof.
  apply (eventless_day_carries_forward accept_all 1 3 None None None
           scenario_C (3, 3)).
  - vm_compute. reflexivity.
  - vm_compute. left.
  - lia.
  - vm_compute. reflexivity.
Defined.

Lemma rows_outside_range_untouched_witness :
  let run := cascade_recalc_stock accept_all 5 5 None None None in
  stock_entries (final_state (run scenario_no_row_today)) !! key_of 4 unit_U
  = stock_entries scenario_no_row_today !! key_of 4 unit_U
  ∧ stock_entries (statement run scenario_no_row_today).2 !! key_of 4 unit_U
    = stock_entries scenario_no_row_today !! key_of 4 unit_U.
Proof.
  apply (rows_outside_range_untouched accept_all 5 5 None None None
           scenario_no_row_today (key_of 4 unit_U)).
  simpl. lia.
Defined.

Lemma event_statement_frame_witness :
  let s := final_state (cascade_recalc_stock accept_all 1 3 None None None
                          scenario_A) in
  let moved := UPDATE_stock_events 0 (event_for unit_V 1 "masuk" 1) in
  stock_entries (statement (run_dml accept_all moved 3) s).2 !! key_of 1 unit_U
  = stock_entries s !! key_of 1 unit_U.
Proof.
  apply (event_statement_frame accept_all
           (UPDATE_stock_events 0 (event_for unit_V 1 "masuk" 1)) 3
           (final_state (cascade_recalc_stock accept_all 1 3 None None None
                           scenario_A))
           (event_for unit_V 1 "masuk" 1)).
  - vm_compute. reflexivity.
  - intros [Hu _]. vm_compute in Hu. discriminate.
Defined.
